(** * Photo watermark CLI (hw1/watermark.py): a shallow embedding

    The Python module stamps a date on every image of a directory.  This
    development embeds its functions one by one, keeping their names:

    - [get_exif_date], [ensure_font], [parse_color], [measure_text],
      [place_text_position], [draw_watermark], [process_image],
      [gather_targets] and [main].

    Python exceptions are values of [Exc]; code that reads or writes the file
    system runs in the state-and-exception monad [FSM]; [main], which also
    prints, runs in [IO].  The libraries the module calls (datetime, Pillow,
    piexif) are interfaces ([DateTimeLib], [ImagingLib]); the theorems hold
    for every implementation of them, and a reference implementation makes
    the model executable on concrete inputs. *)

From Stdlib Require Import ZArith Ascii String List Lia Bool.
From Stdlib.Strings Require Import Byte.
From stdpp Require Import base option list gmap strings sorting pretty.

Local Open Scope Z_scope.
Local Open Scope string_scope.

(** ** Exceptions *)

(** An exception instance: its class name and [str(e)].  Only subclasses of
    [Exception] are modelled (what [except Exception] catches). *)
Record exn := Exn { exn_class : string; exn_str : string }.

Inductive Exc (A : Type) : Type :=
| Ret (a : A)
| Raise (e : exn).
Arguments Ret {A} a.
Arguments Raise {A} e.

#[export] Instance Exc_ret : MRet Exc := @Ret.
#[export] Instance Exc_bind : MBind Exc := λ A B f m,
  match m with Ret a => f a | Raise e => Raise e end.

(** [try: m except Exception as e: h e] *)
Definition try_except {A} (m : Exc A) (h : exn → Exc A) : Exc A :=
  match m with Ret a => Ret a | Raise e => h e end.

Definition TypeError (msg : string) : exn := Exn "TypeError" msg.
Definition ValueError (msg : string) : exn := Exn "ValueError" msg.
Definition RuntimeError (msg : string) : exn := Exn "RuntimeError" msg.
Definition OSError (cls msg : string) : exn := Exn cls msg.

(** ** Strings *)

(** A Python [str] is kept as the Rocq [string] of its UTF-8 encoding, so
    ASCII text is itself and comparing strings byte by byte is comparing them
    code point by code point. *)

(** [c.lower()] on the ASCII range.  The literals that the module compares a
    lowered string with ('top-left', '.jpg', ...) are ASCII and have no 'k',
    the only ASCII letter that a non-ASCII code point (the Kelvin sign) lowers
    to; a string with another non-ASCII code point keeps one when lowered.  So
    every such comparison has the outcome [str.lower] gives. *)
Definition lower_ascii (c : ascii) : ascii :=
  let n := N_of_ascii c in
  if ((65 <=? n) && (n <=? 90))%N then ascii_of_N (n + 32) else c.

Fixpoint lower (s : string) : string :=
  match s with
  | EmptyString => EmptyString
  | String c s' => String (lower_ascii c) (lower s')
  end.

(** ** TextLayoutEngine: [place_text_position] *)

Definition place_text_position (img_size text_size : Z * Z)
    (position : string) (margin : Z) : Z * Z :=
  let '(iw, ih) := img_size in
  let '(tw, th) := text_size in
  let pos := lower position in
  if (pos =? "top-left") || (pos =? "tl") then (margin, margin)
  else if (pos =? "top-right") || (pos =? "tr") then (iw - tw - margin, margin)
  else if (pos =? "bottom-left") || (pos =? "bl") then (margin, ih - th - margin)
  else if (pos =? "bottom-right") || (pos =? "br") then
    (iw - tw - margin, ih - th - margin)
  else if (pos =? "center") || (pos =? "c") then ((iw - tw) `div` 2, (ih - th) `div` 2)
  else (margin, margin).

(** The placement names that [place_text_position] tells apart from the
    default, after lowering. *)
Definition known_placements : list string :=
  ["top-left"; "tl"; "top-right"; "tr"; "bottom-left"; "bl";
   "bottom-right"; "br"; "center"; "c"].

(** ** Bytes: [bytes.decode('utf-8', errors='ignore')] *)

Definition is_continuation (b : byte) : bool :=
  let n := Byte.to_N b in ((128 <=? n) && (n <? 192))%N.

(** CPython's UTF-8 decoder with the [ignore] error handler: a well-formed
    sequence is kept; at an invalid start byte one byte is skipped; at an
    invalid continuation byte the bytes read so far of the sequence are
    skipped and decoding resumes at the offending byte; a sequence cut off by
    the end of the data is dropped.  Overlong forms, surrogates and code
    points above U+10FFFF are refused at their second byte.  It never
    raises. *)
Fixpoint utf8_ignore (bs : list byte) : list byte :=
  match bs with
  | [] => []
  | b1 :: r1 =>
    let ch := Byte.to_N b1 in
    if (ch <? 128)%N then b1 :: utf8_ignore r1
    else if (ch <? 194)%N then utf8_ignore r1
    else if (ch <? 224)%N then
      match r1 with
      | [] => []
      | b2 :: r2 =>
        if is_continuation b2 then b1 :: b2 :: utf8_ignore r2
        else utf8_ignore r1
      end
    else if (ch <? 240)%N then
      match r1 with
      | [] => []
      | b2 :: r2 =>
        let ch2 := Byte.to_N b2 in
        if negb (is_continuation b2)
           || (if (ch2 <? 160)%N then (ch =? 224)%N else (ch =? 237)%N)
        then utf8_ignore r1
        else
          match r2 with
          | [] => []
          | b3 :: r3 =>
            if is_continuation b3 then b1 :: b2 :: b3 :: utf8_ignore r3
            else utf8_ignore r2
          end
      end
    else if (ch <? 245)%N then
      match r1 with
      | [] => []
      | b2 :: r2 =>
        let ch2 := Byte.to_N b2 in
        if negb (is_continuation b2)
           || (if (ch2 <? 144)%N then (ch =? 240)%N else (ch =? 244)%N)
        then utf8_ignore r1
        else
          match r2 with
          | [] => []
          | b3 :: r3 =>
            if negb (is_continuation b3) then utf8_ignore r2
            else
              match r3 with
              | [] => []
              | b4 :: r4 =>
                if is_continuation b4
                then b1 :: b2 :: b3 :: b4 :: utf8_ignore r4
                else utf8_ignore r3
              end
          end
      end
    else utf8_ignore r1
  end.

Definition decode_utf8_ignore (bs : list byte) : string :=
  string_of_list_byte (utf8_ignore bs).

(** ** Metadata values *)

(** What a metadata reader hands back for a tag: piexif gives [bytes] for
    ASCII tags, Pillow gives [str]; numeric tags come as an [int] or a tuple. *)
Inductive TagValue :=
| VBytes (b : list byte)
| VStr (s : string)
| VInt (n : Z)
| VTuple (l : list Z).

(** Truth value of [dto] in [if dto] / [if not dto]; [None] is falsy. *)
Definition value_truthy (v : TagValue) : bool :=
  match v with
  | VBytes b => negb (bool_decide (b = []))
  | VStr s => negb (s =? "")
  | VInt n => negb (n =? 0)%Z
  | VTuple l => negb (bool_decide (l = []))
  end.

Definition truthy (o : option TagValue) : bool :=
  match o with Some v => value_truthy v | None => false end.

(** [piexif.ExifIFD.DateTimeOriginal] and [piexif.ImageIFD.DateTime]. *)
Definition DateTimeOriginal : Z := 36867.
Definition DateTime : Z := 306.

(** The entries of Pillow's [ExifTags.TAGS] (tag id, tag name) around the two
    date tags, in the table's order. *)
Definition TAGS : list (Z * string) :=
  [(271, "Make"); (272, "Model"); (274, "Orientation"); (306, "DateTime");
   (34665, "ExifOffset"); (36867, "DateTimeOriginal");
   (36868, "DateTimeDigitized")].

(** [{v: k for k, v in ExifTags.TAGS.items()}] *)
Definition tag_map : gmap string Z :=
  foldl (λ m kv, <[kv.2 := kv.1]> m) ∅ TAGS.

(** ** Paths *)

(** A [pathlib.Path] is the list of its [parts]; [[]] is [Path('.')]. *)
Abbreviation Path := (list string).

Fixpoint split_on (sep : ascii) (s : string) : list string :=
  match s with
  | EmptyString => [EmptyString]
  | String c s' =>
    if Ascii.eqb c sep then EmptyString :: split_on sep s'
    else match split_on sep s' with
         | [] => [String c EmptyString]
         | w :: ws => String c w :: ws
         end
  end.

(** [Path(s)]: empty and '.' components are dropped, a leading slash is the
    root part. *)
Definition path_of_string (s : string) : Path :=
  let comps :=
    filter (λ c, c ≠ "" ∧ c ≠ ".") (split_on "/" s) in
  match s with
  | String "/" _ => "/" :: comps
  | _ => comps
  end.

(** [p / s]: an absolute [s] replaces [p]. *)
Definition path_join (p : Path) (s : string) : Path :=
  match s with
  | String "/" _ => path_of_string s
  | _ => p ++ path_of_string s
  end.

(** [p.name] *)
Definition path_name (p : Path) : string :=
  if bool_decide (p = ["/"]) then "" else List.last p "".

(** [p.parent] *)
Definition path_parent (p : Path) : Path :=
  if bool_decide (p = ["/"]) then ["/"] else removelast p.

(** [str(p)] *)
Definition path_str (p : Path) : string :=
  match p with
  | [] => "."
  | "/" :: rest => "/" ++ String.concat "/" rest
  | _ => String.concat "/" p
  end.

(** [name.rfind('.')]: the index of the last dot. *)
Fixpoint rfind_dot (s : string) : option nat :=
  match s with
  | EmptyString => None
  | String c s' =>
    match rfind_dot s' with
    | Some i => Some (S i)
    | None => if Ascii.eqb c "." then Some O else None
    end
  end.

(** [p.suffix]: the part of the name from its last dot on, when that dot is
    neither the first nor the last character. *)
Definition name_suffix (name : string) : string :=
  match rfind_dot name with
  | Some i =>
    if (0 <? i)%nat && (i <? String.length name - 1)%nat
    then String.substring i (String.length name - i) name
    else ""
  | None => ""
  end.

Definition path_suffix (p : Path) : string := name_suffix (path_name p).

(** Lexicographic comparison, as Python compares sequences. *)
Fixpoint lex_compare {A} (cmp : A → A → comparison) (l1 l2 : list A)
    : comparison :=
  match l1, l2 with
  | [], [] => Eq
  | [], _ :: _ => Lt
  | _ :: _, [] => Gt
  | x :: l1', y :: l2' =>
    match cmp x y with
    | Eq => lex_compare cmp l1' l2'
    | c => c
    end
  end.

(** [a < b] on [str]: code point by code point. *)
Definition str_compare (a b : string) : comparison :=
  lex_compare N.compare (N_of_ascii <$> list_ascii_of_string a)
                        (N_of_ascii <$> list_ascii_of_string b).

(** Paths compare by their parts. *)
Definition path_compare (p q : Path) : comparison :=
  lex_compare str_compare p q.

Definition path_le (p q : Path) : Prop := path_compare p q ≠ Gt.

#[export] Instance path_le_dec p q : Decision (path_le p q).
Proof. unfold path_le. apply _. Defined.

(** [sorted(paths)] *)
Definition sorted (l : list Path) : list Path := merge_sort path_le l.

(** ** The module's constant *)

Definition SUPPORTED_EXTS : gset string :=
  {[ ".jpg"; ".jpeg"; ".png"; ".tiff"; ".tif"; ".webp"; ".bmp" ]}.

(** ** The libraries the module calls *)

(** A DateStamp: four digits, a dash, two digits, a dash, two digits. *)
Definition is_digit (c : ascii) : bool :=
  let n := N_of_ascii c in ((48 <=? n) && (n <=? 57))%N.

Definition wf_datestamp (s : string) : bool :=
  match list_ascii_of_string s with
  | [y1; y2; y3; y4; s1; m1; m2; s2; d1; d2] =>
    forallb is_digit [y1; y2; y3; y4; m1; m2; d1; d2]
    && Ascii.eqb s1 "-" && Ascii.eqb s2 "-"
  | _ => false
  end.

(** The [datetime] module.  [strptime_exif s] is
    [datetime.strptime(s, '%Y:%m:%d %H:%M:%S')], [strftime_ymd dt] is
    [dt.strftime('%Y-%m-%d')]; a call that raises returns [Raise].  The one
    law is the documented shape of ['%Y-%m-%d'] (the year with century as a
    zero-padded decimal number, month and day zero-padded). *)
Class DateTimeLib := {
  timestamp : Type;
  datetime : Type;
  strptime_exif : string → Exc datetime;
  fromisoformat : string → Exc datetime;
  fromtimestamp : timestamp → Exc datetime;
  strftime_ymd : datetime → string;
  strftime_ymd_wf : ∀ dt, wf_datestamp (strftime_ymd dt) = true
}.

(** Pillow ([Image], [ImageDraw], [ImageFont], [ImageColor]) and piexif.
    [filedata] is what a file holds.  The laws are the ones the renderer
    relies on: [convert] returns an image of the mode asked for, and
    [alpha_composite] an RGBA image. *)
Class ImagingLib := {
  Image : Type;
  Font : Type;
  filedata : Type;
  _HAS_PIEXIF : bool;
  piexif_load : filedata → Exc (gmap string (gmap Z TagValue));
  image_decode : filedata → Exc Image;
  image_getexif : Image → Exc (option (gmap Z TagValue));
  im_mode : Image → string;
  im_size : Image → Z * Z;
  image_convert : Image → string → Exc Image;
  image_copy : Image → Exc Image;
  image_new : string → Z * Z → list Z → Exc Image;
  alpha_composite : Image → Image → Exc Image;
  image_encode : Image → Path → Exc filedata;
  truetype : string → Z → Exc Font;
  load_default : Exc Font;
  draw_textbbox : Image → Z * Z → string → Font → Exc (Z * Z * Z * Z);
  draw_textsize : Image → string → Font → Exc (Z * Z);
  draw_text : Image → Z * Z → string → Font → list Z → Exc Image;
  getrgb : string → Exc (list Z);
  image_convert_mode : ∀ im m im',
    image_convert im m = Ret im' → im_mode im' = m;
  alpha_composite_mode : ∀ a b im,
    alpha_composite a b = Ret im → im_mode im = "RGBA"
}.

(** What the run finds around it: the clock that stamps the files it writes
    and the home directory that [expanduser] puts for a leading '~'. *)
Class Platform `{DateTimeLib} := {
  time_now : timestamp;
  home_dir : Path
}.

(** A ProcessResult: (path, success flag, message). *)
Definition ProcessResult : Type := Path * bool * string.

(** The parsed command line ([args] of [main]). *)
Record Args := {
  arg_path : string;
  arg_font_size : Z;
  arg_color : string;
  arg_position : string;
  arg_out_subdir : string
}.

Section Model.
Context `{DT : DateTimeLib} `{IM : ImagingLib} `{PF : !Platform}.

(** ** The file system *)

Inductive node :=
| NFile (mtime : timestamp) (data : filedata)
| NDir
| NOther.

Abbreviation FS := (gmap Path node).

(** Code that reads and writes the file system and may raise.  An exception
    does not undo what was written before it. *)
Definition FSM (A : Type) : Type := FS → Exc A * FS.

#[global] Instance FSM_ret : MRet FSM := λ A a fs, (Ret a, fs).
#[global] Instance FSM_bind : MBind FSM := λ A B f m fs,
  match m fs with
  | (Ret a, fs') => f a fs'
  | (Raise e, fs') => (Raise e, fs')
  end.

Definition lift {A} (m : Exc A) : FSM A := λ fs, (m, fs).
Definition raise {A} (e : exn) : FSM A := λ fs, (Raise e, fs).

(** [try: m except Exception as e: h e] *)
Definition try_fs {A} (m : FSM A) (h : exn → FSM A) : FSM A := λ fs,
  match m fs with
  | (Ret a, fs') => (Ret a, fs')
  | (Raise e, fs') => h e fs'
  end.

Definition path_exists (p : Path) : FSM bool := λ fs,
  (Ret (bool_decide (is_Some (fs !! p))), fs).

Definition is_dir (p : Path) : FSM bool := λ fs,
  (Ret (match fs !! p with Some NDir => true | _ => false end), fs).

Definition is_file (p : Path) : FSM bool := λ fs,
  (Ret (match fs !! p with Some (NFile _ _) => true | _ => false end), fs).

(** The children of [p], in the order the map lists them. *)
Definition children (fs : FS) (p : Path) : list Path :=
  filter (λ q, q ≠ p ∧ path_parent q = p) (map_to_list fs).*1.

Definition iterdir (p : Path) : FSM (list Path) := λ fs,
  match fs !! p with
  | Some NDir => (Ret (children fs p), fs)
  | Some _ => (Raise (OSError "NotADirectoryError" (path_str p)), fs)
  | None => (Raise (OSError "FileNotFoundError" (path_str p)), fs)
  end.

(** [p.stat().st_mtime] *)
Definition stat_mtime (p : Path) : FSM timestamp := λ fs,
  match fs !! p with
  | Some (NFile mtime _) => (Ret mtime, fs)
  | Some _ => (Ret time_now, fs)
  | None => (Raise (OSError "FileNotFoundError" (path_str p)), fs)
  end.

(** Opening [p] for reading. *)
Definition read_file (p : Path) : FSM filedata := λ fs,
  match fs !! p with
  | Some (NFile _ data) => (Ret data, fs)
  | Some NDir => (Raise (OSError "IsADirectoryError" (path_str p)), fs)
  | Some NOther => (Raise (OSError "OSError" (path_str p)), fs)
  | None => (Raise (OSError "FileNotFoundError" (path_str p)), fs)
  end.

(** The prefixes of [p] from the shortest on, [p] last. *)
Definition ancestors (p : Path) : list Path :=
  (λ n, take n p) <$> seq 1 (length p).

(** [p.mkdir(parents=True, exist_ok=True)] *)
Fixpoint mkdir_chain (ps : list Path) : FSM () :=
  match ps with
  | [] => mret ()
  | q :: rest => λ fs,
    match fs !! q with
    | Some NDir => mkdir_chain rest fs
    | Some _ => (Raise (OSError "FileExistsError" (path_str q)), fs)
    | None => mkdir_chain rest (<[q := NDir]> fs)
    end
  end.

Definition mkdir_parents (p : Path) : FSM () := mkdir_chain (ancestors p).

(** Writing [data] to [p]: the directory of [p] has to be there. *)
Definition write_file (p : Path) (data : filedata) : FSM () := λ fs,
  match fs !! path_parent p, fs !! p with
  | _, Some NDir => (Raise (OSError "IsADirectoryError" (path_str p)), fs)
  | Some NDir, _ => (Ret (), <[p := NFile time_now data]> fs)
  | Some _, _ => (Raise (OSError "NotADirectoryError" (path_str p)), fs)
  | None, _ => (Raise (OSError "FileNotFoundError" (path_str p)), fs)
  end.

(** [Image.open(p)] *)
Definition Image_open (p : Path) : FSM Image :=
  data ← read_file p; lift (image_decode data).

(** [img.save(p)] *)
Definition Image_save (img : Image) (p : Path) : FSM () :=
  data ← lift (image_encode img p); write_file p data.

(** [os.path.exists(s)] *)
Definition os_path_exists (s : string) : FSM bool :=
  path_exists (path_of_string s).

(** [Path(s).expanduser()], for the current user's '~'. *)
Definition expanduser (p : Path) : Path :=
  match p with
  | "~" :: rest => home_dir ++ rest
  | _ => p
  end.

(** ** DateResolver: [get_exif_date] *)

(** [val.decode('utf-8', errors='ignore')] when [val] is [bytes]. *)
Definition decode_value (v : TagValue) : TagValue :=
  match v with
  | VBytes b => VStr (decode_utf8_ignore b)
  | _ => v
  end.

(** [datetime.strptime(val, '%Y:%m:%d %H:%M:%S')]: a [TypeError] unless
    [val] is a [str]. *)
Definition py_strptime (v : TagValue) : Exc datetime :=
  match v with
  | VStr s => strptime_exif s
  | _ => Raise (TypeError "strptime() argument 1 must be str")
  end.

(** [datetime.fromisoformat(val)] *)
Definition py_fromisoformat (v : TagValue) : Exc datetime :=
  match v with
  | VStr s => fromisoformat s
  | _ => Raise (TypeError "fromisoformat: argument must be str")
  end.

(** Lines 33-45 and, word for word again, 57-67: decode a [bytes] value,
    parse it as an EXIF date, else as an ISO date, else give [None]. *)
Definition parse_date_value (val : TagValue) : Exc (option string) :=
  let val := decode_value val in
  try_except
    (dt ← py_strptime val; mret (Some (strftime_ymd dt)))
    (λ _, try_except
            (dt ← py_fromisoformat val; mret (Some (strftime_ymd dt)))
            (λ _, mret None)).

(** The branch taken when piexif was imported (lines 24-45), from the
    loaded [exif_dict] on. *)
Definition date_from_piexif (exif_dict : gmap string (gmap Z TagValue))
    : Exc (option string) :=
  let dto : option TagValue := None in
  let dto :=
    if bool_decide (is_Some (default ∅ (exif_dict !! "Exif") !! DateTimeOriginal))
    then default ∅ (exif_dict !! "Exif") !! DateTimeOriginal
    else dto in
  let dto :=
    if negb (truthy dto)
       && bool_decide (is_Some (default ∅ (exif_dict !! "0th") !! DateTime))
    then default ∅ (exif_dict !! "0th") !! DateTime
    else dto in
  match dto with
  | Some val => if value_truthy val then parse_date_value val else mret None
  | None => mret None
  end.

(** The loop [for tag_name in ('DateTimeOriginal', 'DateTime')] of the
    Pillow branch (lines 53-67): the first tag that is in [exif] decides. *)
Fixpoint scan_tags (exif : gmap Z TagValue) (tag_names : list string)
    : Exc (option string) :=
  match tag_names with
  | [] => mret None
  | tag_name :: rest =>
    match tag_map !! tag_name with
    | Some tag_id =>
      if negb (tag_id =? 0)%Z && bool_decide (is_Some (exif !! tag_id))
      then match exif !! tag_id with
           | Some val => parse_date_value val
           | None => Raise (Exn "KeyError" "")
           end
      else scan_tags exif rest
    | None => scan_tags exif rest
    end
  end.

(** The branch taken without piexif (lines 47-67), from [img._getexif()]
    on. *)
Definition date_from_pillow (getexif : option (gmap Z TagValue))
    : Exc (option string) :=
  let exif := match getexif with
              | Some d => if bool_decide (d = ∅) then ∅ else d
              | None => ∅
              end in
  if bool_decide (exif = ∅) then mret None
  else scan_tags exif ["DateTimeOriginal"; "DateTime"].

Definition get_exif_date_body (path : Path) : FSM (option string) :=
  if _HAS_PIEXIF then
    data ← read_file path;
    exif_dict ← lift (piexif_load data);
    lift (date_from_piexif exif_dict)
  else
    img ← Image_open path;
    getexif ← lift (image_getexif img);
    lift (date_from_pillow getexif).

Definition get_exif_date (path : Path) : FSM (option string) :=
  try_fs (get_exif_date_body path) (λ _, mret None).

(** ** Font provider: [ensure_font] *)

Definition font_candidates : list string :=
  ["/usr/share/fonts/truetype/dejavu/DejaVuSans.ttf";
   "/usr/share/fonts/truetype/liberation/LiberationSans-Regular.ttf";
   "/Library/Fonts/Arial.ttf";
   "/System/Library/Fonts/Supplemental/Arial.ttf"].

Definition no_font_message : string :=
  "无法加载字体，请安装字体或指定字体路径。".

(** The loop over the candidates: [Some font] is the [return] inside it,
    [None] is running off its end. *)
Fixpoint try_candidates (candidates : list string) (font_size : Z)
    : FSM (option Font) :=
  match candidates with
  | [] => mret None
  | p :: rest =>
    r ← try_fs
          (ex ← os_path_exists p;
           if ex : bool then font ← lift (truetype p font_size); mret (Some font)
           else mret None)
          (λ _, mret None);
    match r with
    | Some font => mret (Some font)
    | None => try_candidates rest font_size
    end
  end.

Definition ensure_font (font_size : Z) : FSM Font :=
  r ← try_candidates font_candidates font_size;
  match r with
  | Some font => mret font
  | None =>
    try_fs (lift load_default) (λ _, raise (RuntimeError no_font_message))
  end.

(** ** ColorParser: [parse_color] *)

Definition white : list Z := [255; 255; 255; 255].

Definition parse_color (s : string) : Exc (list Z) :=
  r ← try_except
        (rgb ← getrgb s;
         match rgb with
         | [r; g; b] => mret (Some [r; g; b; 255])
         | [_; _; _; _] => mret (Some rgb)
         | _ => mret None
         end)
        (λ _, mret None);
  match r with
  | Some rgba => mret rgba
  | None => mret white
  end.

(** ** Text measurement: [measure_text] *)

(** [draw] is the image that [ImageDraw.Draw] was made for. *)
Definition measure_text (draw : Image) (text : string) (font : Font)
    : Exc (Z * Z) :=
  try_except
    (bbox ← draw_textbbox draw (0, 0) text font;
     let '(x0, y0, x1, y1) := bbox in
     let w := x1 - x0 in
     let h := y1 - y0 in
     mret (w, h))
    (λ _, draw_textsize draw text font).

(** ** WatermarkRenderer: [draw_watermark] *)

Definition outline_color : list Z := [0; 0; 0; 200].
Definition offsets : list (Z * Z) := [(-1, -1); (-1, 1); (1, -1); (1, 1)].

(** The four outline strokes; each [draw.text] changes the layer. *)
Fixpoint draw_outline (layer : Image) (x y : Z) (text : string) (font : Font)
    (offs : list (Z * Z)) : Exc Image :=
  match offs with
  | [] => mret layer
  | (ox, oy) :: rest =>
    layer' ← draw_text layer (x + ox, y + oy) text font outline_color;
    draw_outline layer' x y text font rest
  end.

Definition draw_watermark (image : Image) (text : string) (font_size : Z)
    (color : list Z) (position : string) : FSM Image :=
  base ← lift (if negb (im_mode image =? "RGBA")
               then image_convert image "RGBA"
               else image_copy image);
  txt_layer ← lift (image_new "RGBA" (im_size base) [255; 255; 255; 0]);
  font ← ensure_font font_size;
  '(text_w, text_h) ← lift (measure_text txt_layer text font);
  let '(x, y) :=
    place_text_position (im_size base) (text_w, text_h) position 10 in
  txt_layer ← lift (draw_outline txt_layer x y text font offsets);
  txt_layer ← lift (draw_text txt_layer (x, y) text font color);
  out ← lift (alpha_composite base txt_layer);
  if negb (im_mode image =? "RGBA")
  then lift (image_convert out (im_mode image))
  else mret out.

(** ** BatchDriver: [process_image], [gather_targets], [main] *)

(** Lines 170-175 of [process_image]: the date that becomes the text.
    [if not date] holds for [None] and for the empty string. *)
Definition resolve_date (path : Path) : FSM string :=
  date ← get_exif_date path;
  match date with
  | Some d =>
    if negb (d =? "") then mret d
    else mtime ← stat_mtime path;
         dt ← lift (fromtimestamp mtime);
         mret (strftime_ymd dt)
  | None =>
    mtime ← stat_mtime path;
    dt ← lift (fromtimestamp mtime);
    mret (strftime_ymd dt)
  end.

Definition process_image_body (path : Path) (font_size : Z) (color : list Z)
    (position : string) (out_dir : Path) : FSM ProcessResult :=
  date ← resolve_date path;
  let text := date in
  img ← Image_open path;
  out_img ← draw_watermark img text font_size color position;
  _ ← mkdir_parents out_dir;
  let out_path := path_join out_dir (path_name path) in
  _ ← Image_save out_img out_path;
  mret (out_path, true, "Saved -> " ++ path_str out_path).

Definition process_image (path : Path) (font_size : Z) (color : list Z)
    (position : string) (out_dir : Path) : FSM ProcessResult :=
  try_fs (process_image_body path font_size color position out_dir)
         (λ e, mret (path, false, "Error: " ++ exn_str e)).

(** [f.suffix.lower() in SUPPORTED_EXTS] *)
Definition supported (f : Path) : bool :=
  bool_decide (lower (path_suffix f) ∈ SUPPORTED_EXTS).

(** The loop of the directory branch: what it yields, in order. *)
Fixpoint yield_files (fs : list Path) : FSM (list Path) :=
  match fs with
  | [] => mret []
  | f :: rest =>
    isf ← is_file f;
    if (isf : bool) && supported f
    then ys ← yield_files rest; mret (f :: ys)
    else yield_files rest
  end.

(** [list(gather_targets(input_path))] *)
Definition gather_targets (input_path : Path) : FSM (list Path) :=
  isd ← is_dir input_path;
  if isd : bool then
    entries ← iterdir input_path;
    yield_files (sorted entries)
  else
    isf ← is_file input_path;
    if isf : bool then
      if supported input_path then mret [input_path] else mret []
    else mret [].

(** Code that also prints: the lines come out in order, next to the result
    and the file system. *)
Definition IO (A : Type) : Type := FS → Exc A * FS * list string.

#[global] Instance IO_ret : MRet IO := λ A a fs, (Ret a, fs, []).
#[global] Instance IO_bind : MBind IO := λ A B f m fs,
  match m fs with
  | (Ret a, fs', out) =>
    let '(r, fs'', out') := f a fs' in (r, fs'', (out ++ out')%list)
  | (Raise e, fs', out) => (Raise e, fs', out)
  end.

Definition run {A} (m : FSM A) : IO A := λ fs,
  let '(r, fs') := m fs in (r, fs', []).

(** [print(line)] *)
Definition print (line : string) : IO () := λ fs, (Ret (), fs, [line]).

Definition str_le (a b : string) : Prop := str_compare a b ≠ Gt.

#[global] Instance str_le_dec a b : Decision (str_le a b).
Proof. unfold str_le. apply _. Defined.

(** [','.join(sorted(SUPPORTED_EXTS))] *)
Definition supported_exts_text : string :=
  String.concat "," (merge_sort str_le (elements SUPPORTED_EXTS)).

Definition not_found_line (input_path : Path) : string :=
  "路径不存在: " ++ path_str input_path.

Definition no_images_line : string :=
  "没有发现支持的图片文件。支持扩展名： " ++ supported_exts_text.

Definition found_line (n : nat) (out_dir : Path) : string :=
  "Found " ++ pretty n ++ " images. Output dir: " ++ path_str out_dir.

Definition file_line (t : Path) (msg : string) : string :=
  path_name t ++ " -> " ++ msg.

Definition done_line (success : Z) (n : nat) : string :=
  "Done. " ++ pretty success ++ "/" ++ pretty n ++ " processed.".

(** The loop of [main] over the targets, with its counter. *)
Fixpoint main_loop (targets : list Path) (font_size : Z) (color : list Z)
    (position : string) (out_dir : Path) (success : Z) : IO Z :=
  match targets with
  | [] => mret success
  | t :: rest =>
    '(out_path, ok, msg) ← run (process_image t font_size color position out_dir);
    _ ← print (file_line t msg);
    main_loop rest font_size color position out_dir
              (if ok : bool then success + 1 else success)
  end.

Definition main (args : Args) : IO () :=
  let input_path := expanduser (path_of_string (arg_path args)) in
  ex ← run (path_exists input_path);
  if negb ex then print (not_found_line input_path)
  else
    isd ← run (is_dir input_path);
    let base_dir := if isd : bool then input_path else path_parent input_path in
    let out_dir := path_join base_dir (arg_out_subdir args) in
    color ← run (lift (parse_color (arg_color args)));
    targets ← run (gather_targets input_path);
    match targets with
    | [] => print no_images_line
    | _ =>
      _ ← print (found_line (length targets) out_dir);
      success ← main_loop targets (arg_font_size args) color
                          (arg_position args) out_dir 0;
      print (done_line success (length targets))
    end.

End Model.

Abbreviation FS := (gmap Path node).

(** * A reference implementation of the libraries

    Small executable stand-ins for datetime, Pillow and piexif, on which the
    model runs.  They follow the libraries on ASCII input; what they leave
    out is said at each definition.  No theorem about the module above
    depends on them: they show that the interfaces can be met and give the
    concrete runs. *)

Module Reference.

Local Open Scope Z_scope.

(** ** datetime *)

Record rdatetime := {
  dt_year : Z; dt_month : Z; dt_day : Z;
  dt_hour : Z; dt_minute : Z; dt_second : Z
}.

Definition is_leap (y : Z) : bool :=
  ((y `mod` 4 =? 0) && negb (y `mod` 100 =? 0)) || (y `mod` 400 =? 0).

Definition days_in_month (y m : Z) : Z :=
  if m =? 2 then (if is_leap y then 29 else 28)
  else if (m =? 4) || (m =? 6) || (m =? 9) || (m =? 11) then 30
  else 31.

(** The constructor [datetime(y, m, d, hh, mi, ss)] with its range checks. *)
Definition make_datetime (y m d hh mi ss : Z) : Exc rdatetime :=
  if (1 <=? y) && (y <=? 9999) && (1 <=? m) && (m <=? 12)
     && (1 <=? d) && (d <=? days_in_month y m)
     && (0 <=? hh) && (hh <=? 23) && (0 <=? mi) && (mi <=? 59)
     && (0 <=? ss) && (ss <=? 59)
  then Ret {| dt_year := y; dt_month := m; dt_day := d;
              dt_hour := hh; dt_minute := mi; dt_second := ss |}
  else Raise (ValueError "date value out of range").

Definition digit_val (c : ascii) : Z := Z.of_N (N_of_ascii c) - 48.

Definition digit_char (d : Z) : ascii := ascii_of_N (48 + Z.to_N (d `mod` 10)).

Definition in_range (lo hi : ascii) (c : ascii) : bool :=
  ((N_of_ascii lo <=? N_of_ascii c) && (N_of_ascii c <=? N_of_ascii hi))%N.

(** [\s] on ASCII. *)
Definition is_space (c : ascii) : bool :=
  let n := N_of_ascii c in
  ((n =? 32) || ((9 <=? n) && (n <=? 13)) || ((28 <=? n) && (n <=? 31)))%N.

(** A parser reads a number off the front of the input. *)
Definition parser := list ascii → option (Z * list ascii).

(** [\d\d\d\d] *)
Definition p_year : parser := λ s,
  match s with
  | a :: b :: c :: d :: r =>
    if forallb is_digit [a; b; c; d]
    then Some (digit_val a * 1000 + digit_val b * 100
               + digit_val c * 10 + digit_val d, r)
    else None
  | _ => None
  end.

(** [1[0-2]|0[1-9]|[1-9]] *)
Definition p_month : parser := λ s,
  match s with
  | a :: b :: r =>
    if Ascii.eqb a "1" && in_range "0" "2" b then Some (10 + digit_val b, r)
    else if Ascii.eqb a "0" && in_range "1" "9" b then Some (digit_val b, r)
    else if in_range "1" "9" a then Some (digit_val a, b :: r)
    else None
  | [a] => if in_range "1" "9" a then Some (digit_val a, []) else None
  | [] => None
  end.

(** [3[0-1]|[1-2]\d|0[1-9]|[1-9]| [1-9]] *)
Definition p_day : parser := λ s,
  match s with
  | a :: b :: r =>
    if Ascii.eqb a "3" && in_range "0" "1" b then Some (30 + digit_val b, r)
    else if in_range "1" "2" a && is_digit b
      then Some (digit_val a * 10 + digit_val b, r)
    else if Ascii.eqb a "0" && in_range "1" "9" b then Some (digit_val b, r)
    else if in_range "1" "9" a then Some (digit_val a, b :: r)
    else if Ascii.eqb a " " && in_range "1" "9" b then Some (digit_val b, r)
    else None
  | [a] => if in_range "1" "9" a then Some (digit_val a, []) else None
  | [] => None
  end.

(** [2[0-3]|[0-1]\d|\d] *)
Definition p_hour : parser := λ s,
  match s with
  | a :: b :: r =>
    if Ascii.eqb a "2" && in_range "0" "3" b then Some (20 + digit_val b, r)
    else if in_range "0" "1" a && is_digit b
      then Some (digit_val a * 10 + digit_val b, r)
    else if is_digit a then Some (digit_val a, b :: r)
    else None
  | [a] => if is_digit a then Some (digit_val a, []) else None
  | [] => None
  end.

(** [[0-5]\d|\d] *)
Definition p_minute : parser := λ s,
  match s with
  | a :: b :: r =>
    if in_range "0" "5" a && is_digit b
    then Some (digit_val a * 10 + digit_val b, r)
    else if is_digit a then Some (digit_val a, b :: r)
    else None
  | [a] => if is_digit a then Some (digit_val a, []) else None
  | [] => None
  end.

(** [6[0-1]|[0-5]\d|\d] *)
Definition p_second : parser := λ s,
  match s with
  | a :: b :: r =>
    if Ascii.eqb a "6" && in_range "0" "1" b then Some (60 + digit_val b, r)
    else p_minute s
  | _ => p_minute s
  end.

Definition p_char (c : ascii) (s : list ascii) : option (list ascii) :=
  match s with
  | a :: r => if Ascii.eqb a c then Some r else None
  | [] => None
  end.

Fixpoint skip_spaces (s : list ascii) : list ascii :=
  match s with
  | a :: r => if is_space a then skip_spaces r else s
  | [] => []
  end.

(** [\s+] *)
Definition p_spaces (s : list ascii) : option (list ascii) :=
  match s with
  | a :: r => if is_space a then Some (skip_spaces r) else None
  | [] => None
  end.

(** [datetime.strptime(s, '%Y:%m:%d %H:%M:%S')] on ASCII digits and white
    space: the pattern has to match the whole string, and the fields have to
    make a date. *)
Definition strptime_exif (s : string) : Exc rdatetime :=
  let parsed :=
    '(y, r) ← p_year (list_ascii_of_string s);
    r ← p_char ":" r;
    '(m, r) ← p_month r;
    r ← p_char ":" r;
    '(d, r) ← p_day r;
    r ← p_spaces r;
    '(hh, r) ← p_hour r;
    r ← p_char ":" r;
    '(mi, r) ← p_minute r;
    r ← p_char ":" r;
    '(ss, r) ← p_second r;
    match r with [] => Some (y, m, d, hh, mi, ss) | _ => None end in
  match parsed with
  | Some (y, m, d, hh, mi, ss) => make_datetime y m d hh mi ss
  | None => Raise (ValueError "time data does not match format")
  end.

(** [\d\d] *)
Definition p_two : parser := λ s,
  match s with
  | a :: b :: r =>
    if is_digit a && is_digit b then Some (digit_val a * 10 + digit_val b, r)
    else None
  | _ => None
  end.

(** [datetime.fromisoformat(s)] for 'YYYY-MM-DD', alone or followed by one
    separator character and 'HH', 'HH:MM' or 'HH:MM:SS'.  Fractions of a
    second and UTC offsets are refused here. *)
Definition fromisoformat (s : string) : Exc rdatetime :=
  let parsed :=
    '(y, r) ← p_year (list_ascii_of_string s);
    r ← p_char "-" r;
    '(m, r) ← p_two r;
    r ← p_char "-" r;
    '(d, r) ← p_two r;
    match r with
    | [] => Some (y, m, d, 0, 0, 0)
    | _ :: r =>
      '(hh, r) ← p_two r;
      match r with
      | [] => Some (y, m, d, hh, 0, 0)
      | _ =>
        r ← p_char ":" r;
        '(mi, r) ← p_two r;
        match r with
        | [] => Some (y, m, d, hh, mi, 0)
        | _ =>
          r ← p_char ":" r;
          '(ss, r) ← p_two r;
          match r with [] => Some (y, m, d, hh, mi, ss) | _ => None end
        end
      end
    end in
  match parsed with
  | Some (y, m, d, hh, mi, ss) => make_datetime y m d hh mi ss
  | None => Raise (ValueError "Invalid isoformat string")
  end.

(** [datetime.fromtimestamp(t)] for whole seconds since the epoch, with UTC
    as the local time zone: the civil date of day [t / 86400]. *)
Definition fromtimestamp (t : Z) : Exc rdatetime :=
  let days := t `div` 86400 in
  let secs := t `mod` 86400 in
  let z := days + 719468 in
  let era := z `div` 146097 in
  let doe := z - era * 146097 in
  let yoe := (doe - doe `div` 1460 + doe `div` 36524 - doe `div` 146096) `div` 365 in
  let doy := doe - (365 * yoe + yoe `div` 4 - yoe `div` 100) in
  let mp := (5 * doy + 2) `div` 153 in
  let d := doy - (153 * mp + 2) `div` 5 + 1 in
  let m := if mp <? 10 then mp + 3 else mp - 9 in
  let y := yoe + era * 400 + (if m <=? 2 then 1 else 0) in
  make_datetime y m d (secs `div` 3600) ((secs `mod` 3600) `div` 60) (secs `mod` 60).

Definition pad2 (n : Z) : list ascii := [digit_char (n `div` 10); digit_char n].

Definition pad4 (n : Z) : list ascii :=
  [digit_char (n `div` 1000); digit_char (n `div` 100);
   digit_char (n `div` 10); digit_char n].

(** [dt.strftime('%Y-%m-%d')] *)
Definition strftime_ymd (dt : rdatetime) : string :=
  string_of_list_ascii
    (pad4 (dt_year dt) ++ ["-"%char] ++ pad2 (dt_month dt)
     ++ ["-"%char] ++ pad2 (dt_day dt)).

(** ** Pillow and piexif *)

(** A call of [draw.text]: where, what, in which color. *)
Record mark := { mk_xy : Z * Z; mk_text : string; mk_fill : list Z }.

(** An image: its mode and size, the metadata it was read with (piexif's
    layout: IFD name, tag id, value) and, for its pixels, the text drawn on
    it. *)
Record rimage := {
  r_mode : string;
  r_size : Z * Z;
  r_exif : option (gmap string (gmap Z TagValue));
  r_marks : list mark
}.

Record rfont := { f_name : string; f_size : Z }.

(** A file holds an encoded image or something else. *)
Inductive rfile :=
| ImageFile (img : rimage)
| OtherFile.

Definition empty_exif : gmap string (gmap Z TagValue) :=
  {[ "0th" := ∅; "Exif" := ∅ ]}.

Definition piexif_load (data : rfile) : Exc (gmap string (gmap Z TagValue)) :=
  match data with
  | ImageFile img => Ret (default empty_exif (r_exif img))
  | OtherFile => Raise (Exn "InvalidImageDataError" "Given file is neither JPEG nor TIFF.")
  end.

Definition image_decode (data : rfile) : Exc rimage :=
  match data with
  | ImageFile img => Ret img
  | OtherFile => Raise (Exn "UnidentifiedImageError" "cannot identify image file")
  end.

(** [img._getexif()]: the tags of the 0th and the Exif IFD in one
    dictionary, [None] without metadata. *)
Definition image_getexif (img : rimage) : Exc (option (gmap Z TagValue)) :=
  match r_exif img with
  | Some d => Ret (Some (default ∅ (d !! "Exif"%string) ∪ default ∅ (d !! "0th"%string)))
  | None => Ret None
  end.

Definition modes : list string :=
  ["1"; "L"; "LA"; "P"; "RGB"; "RGBA"; "CMYK"; "YCbCr"; "I"; "F"]%string.

Definition image_convert (img : rimage) (m : string) : Exc rimage :=
  if bool_decide (m ∈ modes) && bool_decide (r_mode img ∈ modes)
  then Ret {| r_mode := m; r_size := r_size img;
              r_exif := r_exif img; r_marks := r_marks img |}
  else Raise (ValueError "conversion not supported").

Definition image_copy (img : rimage) : Exc rimage := Ret img.

Definition image_new (m : string) (size : Z * Z) (color : list Z)
    : Exc rimage :=
  if bool_decide (m ∈ modes)
  then Ret {| r_mode := m; r_size := size; r_exif := None; r_marks := [] |}
  else Raise (ValueError "unrecognized image mode").

Definition alpha_composite (im1 im2 : rimage) : Exc rimage :=
  if (r_mode im1 =? "RGBA")%string && (r_mode im2 =? "RGBA")%string
     && bool_decide (r_size im1 = r_size im2)
  then Ret {| r_mode := "RGBA"; r_size := r_size im1; r_exif := r_exif im1;
              r_marks := r_marks im1 ++ r_marks im2 |}
  else Raise (ValueError "images do not match").

(** [img.save(p)] up to the write: the format follows the suffix, and JPEG
    takes no alpha channel. *)
Definition image_encode (img : rimage) (p : Path) : Exc rfile :=
  let ext := lower (path_suffix p) in
  if negb (bool_decide (ext ∈ SUPPORTED_EXTS))
  then Raise (ValueError ("unknown file extension: " +:+ ext))
  else if bool_decide (ext ∈ [".jpg"; ".jpeg"]%string)
          && bool_decide (r_mode img ∈ ["RGBA"; "LA"; "P"]%string)
  then Raise (OSError "OSError" ("cannot write mode " +:+ r_mode img +:+ " as JPEG"))
  else Ret (ImageFile img).

(** The built-in bitmap font: six by eleven pixels a character. *)
Definition text_extent (text : string) : Z * Z :=
  (6 * Z.of_nat (String.length text), 11).

Definition draw_textbbox (draw : rimage) (xy : Z * Z) (text : string)
    (font : rfont) : Exc (Z * Z * Z * Z) :=
  Ret (xy.1, xy.2, xy.1 + (text_extent text).1, xy.2 + (text_extent text).2).

Definition draw_textsize (draw : rimage) (text : string) (font : rfont)
    : Exc (Z * Z) :=
  Ret (text_extent text).

Definition draw_text (draw : rimage) (xy : Z * Z) (text : string)
    (font : rfont) (fill : list Z) : Exc rimage :=
  Ret {| r_mode := r_mode draw; r_size := r_size draw; r_exif := r_exif draw;
         r_marks := r_marks draw ++
                    [{| mk_xy := xy; mk_text := text; mk_fill := fill |}] |}.

(** With [fonts] the font files open and the built-in font loads; without,
    neither does. *)
Definition truetype (fonts : bool) (p : string) (size : Z) : Exc rfont :=
  if fonts then Ret {| f_name := p; f_size := size |}
  else Raise (OSError "OSError" "cannot open resource").

Definition load_default (fonts : bool) : Exc rfont :=
  if fonts then Ret {| f_name := "default"; f_size := 10 |}
  else Raise (OSError "OSError" "cannot open resource").

Definition hex_val (c : ascii) : option Z :=
  if is_digit c then Some (digit_val c)
  else if in_range "a" "f" c then Some (Z.of_N (N_of_ascii c) - 87)
  else None.

Fixpoint hex_pairs (s : list ascii) : option (list Z) :=
  match s with
  | [] => Some []
  | a :: b :: r =>
    h ← hex_val a; l ← hex_val b; rest ← hex_pairs r;
    Some ((16 * h + l) :: rest)
  | _ => None
  end.

(** [int(c*2, 16)] for each digit of the short forms. *)
Fixpoint hex_singles (s : list ascii) : option (list Z) :=
  match s with
  | [] => Some []
  | a :: r => h ← hex_val a; rest ← hex_singles r; Some ((17 * h) :: rest)
  end.

Definition colormap : list (string * list Z) :=
  [("black", [0; 0; 0]); ("white", [255; 255; 255]); ("red", [255; 0; 0]);
   ("green", [0; 128; 0]); ("blue", [0; 0; 255])]%string.

(** [ImageColor.getrgb(color)] for the color names above and the hex forms
    #rgb, #rgba, #rrggbb and #rrggbbaa; the functional notations (rgb(...),
    hsl(...), ...) are refused here. *)
Definition getrgb (color : string) : Exc (list Z) :=
  if (100 <? String.length color)%nat
  then Raise (ValueError "color specifier is too long")
  else
    let color := lower color in
    match list_find (λ kv, kv.1 = color) colormap with
    | Some (_, (_, rgb)) => Ret rgb
    | None =>
      let unknown :=
        Raise (ValueError ("unknown color specifier: '" +:+ color +:+ "'")) in
      match list_ascii_of_string color with
      | "#"%char :: digits =>
        match length digits with
        | 3%nat | 4%nat => from_option Ret unknown (hex_singles digits)
        | 6%nat | 8%nat => from_option Ret unknown (hex_pairs digits)
        | _ => unknown
        end
      | _ => unknown
      end
    end.

(** ** The interfaces, met *)

Lemma is_digit_digit_char d : is_digit (digit_char d) = true.
Proof.
  unfold digit_char.
  pose proof (Z.mod_pos_bound d 10 ltac:(lia)) as Hk.
  set (k := d `mod` 10) in *.
  assert (Hc : k = 0 ∨ k = 1 ∨ k = 2 ∨ k = 3 ∨ k = 4 ∨ k = 5 ∨ k = 6
               ∨ k = 7 ∨ k = 8 ∨ k = 9) by lia.
  repeat (destruct Hc as [-> | Hc]; [reflexivity |]).
  subst k. rewrite Hc. reflexivity.
Qed.

Lemma strftime_ymd_wf dt : wf_datestamp (strftime_ymd dt) = true.
Proof.
  unfold wf_datestamp, strftime_ymd.
  rewrite list_ascii_of_string_of_list_ascii.
  cbn [pad4 pad2 app forallb].
  rewrite !is_digit_digit_char. reflexivity.
Qed.

Lemma image_convert_mode im m im' :
  image_convert im m = Ret im' → r_mode im' = m.
Proof.
  unfold image_convert. case_match; [| discriminate].
  intros [= <-]. reflexivity.
Qed.

Lemma alpha_composite_mode a b im :
  alpha_composite a b = Ret im → r_mode im = "RGBA"%string.
Proof.
  unfold alpha_composite. case_match; [| discriminate].
  intros [= <-]. reflexivity.
Qed.

End Reference.

Definition ref_datetime : DateTimeLib := {|
  timestamp := Z;
  datetime := Reference.rdatetime;
  strptime_exif := Reference.strptime_exif;
  fromisoformat := Reference.fromisoformat;
  fromtimestamp := Reference.fromtimestamp;
  strftime_ymd := Reference.strftime_ymd;
  strftime_ymd_wf := Reference.strftime_ymd_wf
|}.

(** [piexif]: whether piexif is installed; [fonts]: whether any font can be
    loaded. *)
Definition ref_imaging (piexif fonts : bool) : ImagingLib := {|
  Image := Reference.rimage;
  Font := Reference.rfont;
  filedata := Reference.rfile;
  _HAS_PIEXIF := piexif;
  piexif_load := Reference.piexif_load;
  image_decode := Reference.image_decode;
  image_getexif := Reference.image_getexif;
  im_mode := Reference.r_mode;
  im_size := Reference.r_size;
  image_convert := Reference.image_convert;
  image_copy := Reference.image_copy;
  image_new := Reference.image_new;
  alpha_composite := Reference.alpha_composite;
  image_encode := Reference.image_encode;
  truetype := Reference.truetype fonts;
  load_default := Reference.load_default fonts;
  draw_textbbox := Reference.draw_textbbox;
  draw_textsize := Reference.draw_textsize;
  draw_text := Reference.draw_text;
  getrgb := Reference.getrgb;
  image_convert_mode := Reference.image_convert_mode;
  alpha_composite_mode := Reference.alpha_composite_mode
|}.

Definition ref_platform : @Platform ref_datetime := {|
  time_now := 1700000000 : @timestamp ref_datetime;
  home_dir := ["/"; "home"; "user"]
|}.

(** ** A photo folder to run the model on *)

Module Demo.

Definition bytes (s : string) : TagValue := VBytes (list_byte_of_string s).

(** Both date tags, as piexif lays them out. *)
Definition exif_both : gmap string (gmap Z TagValue) :=
  {[ "0th" := {[ DateTime := bytes "2024:01:02 03:04:05" ]};
     "Exif" := {[ DateTimeOriginal := bytes "2023:05:17 10:00:00" ]} ]}.


Definition photo (mode : string)
    (exif : option (gmap string (gmap Z TagValue))) : Reference.rimage :=
  {| Reference.r_mode := mode; Reference.r_size := (200, 100);
     Reference.r_exif := exif; Reference.r_marks := [] |}.

Section Folder.
Variables piexif fonts : bool.

Abbreviation node' := (@node ref_datetime (ref_imaging piexif fonts)).

Definition file (mtime : Z) (data : Reference.rfile) : node' :=
  NFile (mtime : @timestamp ref_datetime)
        (data : @filedata (ref_imaging piexif fonts)).

(** photos/: a.jpg with both date tags, b.jpg that is no image, c.png in
    grayscale without metadata, a text file and a subdirectory. *)
Definition photos : gmap Path node' :=
  list_to_map
    [ ([], NDir);
      (["photos"], NDir);
      (["photos"; "c.png"],
       file 951782400 (Reference.ImageFile (photo "L" None)));
      (["photos"; "a.jpg"],
       file 1700000000 (Reference.ImageFile (photo "RGB" (Some exif_both))));
      (["photos"; "notes.txt"], file 0 Reference.OtherFile);
      (["photos"; "b.jpg"], file 0 Reference.OtherFile);
      (["photos"; "old.JPG"], NDir) ].

(** docs/: text files only. *)
Definition docs : gmap Path node' :=
  list_to_map
    [ ([], NDir);
      (["docs"], NDir);
      (["docs"; "a.txt"], file 0 Reference.OtherFile);
      (["docs"; "b.txt"], file 0 Reference.OtherFile) ].


Definition args (path : string) : Args :=
  {| arg_path := path; arg_font_size := 10; arg_color := "#FFFFFF";
     arg_position := "bottom-right"; arg_out_subdir := "_watermark" |}.

End Folder.

End Demo.

(** * Properties *)

Section Properties.
Context `{DT : DateTimeLib} `{IM : ImagingLib} `{PF : !Platform}.

(** ** Running [FSM] and [IO] code *)

Lemma fsm_bind_run {A B} (m : FSM A) (f : A → FSM B) fs :
  (m ≫= f) fs =
  match m fs with
  | (Ret a, fs') => f a fs'
  | (Raise e, fs') => (Raise e, fs')
  end.
Proof. reflexivity. Qed.

Lemma fsm_bind_ret {A B} (m : FSM A) (f : A → FSM B) fs a fs' :
  m fs = (Ret a, fs') → (m ≫= f) fs = f a fs'.
Proof. intros H. rewrite fsm_bind_run, H. reflexivity. Qed.

Lemma fsm_bind_raise {A B} (m : FSM A) (f : A → FSM B) fs e fs' :
  m fs = (Raise e, fs') → (m ≫= f) fs = (Raise e, fs').
Proof. intros H. rewrite fsm_bind_run, H. reflexivity. Qed.

(** A successful bind went through a successful first half. *)
Lemma fsm_bind_inv {A B} (m : FSM A) (f : A → FSM B) fs b fs2 :
  (m ≫= f) fs = (Ret b, fs2) →
  ∃ a fs1, m fs = (Ret a, fs1) ∧ f a fs1 = (Ret b, fs2).
Proof.
  rewrite fsm_bind_run. destruct (m fs) as [[a | e] fs1]; [eauto | discriminate].
Qed.

Lemma lift_inv {A} (m : Exc A) fs r fs' :
  lift m fs = (r, fs') → m = r ∧ fs' = fs.
Proof. unfold lift. intros [= -> ->]. done. Qed.

(** [m] only reads the file system. *)
Definition readonly {A} (m : FSM A) : Prop := ∀ fs, (m fs).2 = fs.

Lemma readonly_run {A} (m : FSM A) fs r fs' :
  readonly m → m fs = (r, fs') → fs' = fs.
Proof. intros H E. specialize (H fs). rewrite E in H. done. Qed.

Lemma readonly_ret {A} (a : A) : readonly (mret a : FSM A).
Proof. done. Qed.

Lemma readonly_lift {A} (m : Exc A) : readonly (lift m).
Proof. done. Qed.

Lemma readonly_raise {A} e : readonly (raise e : FSM A).
Proof. done. Qed.

Lemma readonly_bind {A B} (m : FSM A) (f : A → FSM B) :
  readonly m → (∀ a, readonly (f a)) → readonly (m ≫= f).
Proof.
  intros Hm Hf fs. rewrite fsm_bind_run.
  specialize (Hm fs). destruct (m fs) as [[a | e] fs1]; simpl in *; subst.
  - apply Hf.
  - done.
Qed.

Lemma readonly_try {A} (m : FSM A) (h : exn → FSM A) :
  readonly m → (∀ e, readonly (h e)) → readonly (try_fs m h).
Proof.
  intros Hm Hh fs. unfold try_fs.
  specialize (Hm fs). destruct (m fs) as [[a | e] fs1]; simpl in *; subst.
  - done.
  - apply Hh.
Qed.

Lemma readonly_path_exists p : readonly (path_exists p).
Proof. done. Qed.

Lemma readonly_is_dir p : readonly (is_dir p).
Proof. done. Qed.

Lemma readonly_is_file p : readonly (is_file p).
Proof. done. Qed.

Lemma readonly_iterdir p : readonly (iterdir p).
Proof. intros fs. unfold iterdir. by repeat case_match. Qed.

Lemma readonly_stat_mtime p : readonly (stat_mtime p).
Proof. intros fs. unfold stat_mtime. by repeat case_match. Qed.

Lemma readonly_read_file p : readonly (read_file p).
Proof. intros fs. unfold read_file. by repeat case_match. Qed.

Lemma readonly_if {A} (b : bool) (m1 m2 : FSM A) :
  readonly m1 → readonly m2 → readonly (if b then m1 else m2).
Proof. by destruct b. Qed.

Create HintDb readonly.
#[local] Hint Resolve readonly_ret readonly_lift readonly_raise readonly_bind
  readonly_try readonly_path_exists readonly_is_dir readonly_is_file
  readonly_iterdir readonly_stat_mtime readonly_read_file readonly_if
  : readonly.

Lemma readonly_Image_open p : readonly (Image_open p).
Proof. unfold Image_open. auto with readonly. Qed.

Lemma readonly_get_exif_date_body p : readonly (get_exif_date_body p).
Proof.
  unfold get_exif_date_body.
  destruct _HAS_PIEXIF; auto 10 using readonly_Image_open with readonly.
Qed.

Lemma readonly_get_exif_date p : readonly (get_exif_date p).
Proof.
  unfold get_exif_date. auto using readonly_get_exif_date_body with readonly.
Qed.

Lemma readonly_resolve_date p : readonly (resolve_date p).
Proof.
  unfold resolve_date. apply readonly_bind; [apply readonly_get_exif_date |].
  intros [d |]; [destruct (negb (d =? ""))|]; auto 10 with readonly.
Qed.

Lemma readonly_try_candidates cands font_size :
  readonly (try_candidates cands font_size).
Proof.
  induction cands as [| p rest IH]; simpl; [auto with readonly |].
  apply readonly_bind.
  - apply readonly_try; [| auto with readonly].
    apply readonly_bind; [apply readonly_path_exists |].
    intros []; auto 10 with readonly.
  - intros [font |]; auto with readonly.
Qed.

Lemma readonly_ensure_font font_size : readonly (ensure_font font_size).
Proof.
  unfold ensure_font. apply readonly_bind; [apply readonly_try_candidates |].
  intros [font |]; auto with readonly.
Qed.

Lemma readonly_draw_watermark image text font_size color position :
  readonly (draw_watermark image text font_size color position).
Proof.
  unfold draw_watermark.
  repeat (first [ apply readonly_lift | apply readonly_ensure_font
                | apply readonly_ret | apply readonly_if
                | apply readonly_bind; [| intros ?]
                | match goal with |- readonly (let '(_, _) := ?p in _) =>
                    destruct p end ]).
Qed.

Lemma readonly_yield_files l : readonly (yield_files l).
Proof.
  induction l as [| f rest IH]; simpl; [auto with readonly |].
  apply readonly_bind; [apply readonly_is_file |].
  intros isf. destruct (isf && supported f); auto with readonly.
Qed.

Lemma readonly_gather_targets p : readonly (gather_targets p).
Proof.
  unfold gather_targets. apply readonly_bind; [apply readonly_is_dir |].
  intros [].
  - apply readonly_bind; [apply readonly_iterdir |].
    intros. apply readonly_yield_files.
  - apply readonly_bind; [apply readonly_is_file |].
    intros []; [destruct (supported p) |]; auto with readonly.
Qed.

(** ** Placement *)

(** The anchor as a function of the lowered name. *)
Definition anchor_of (pos : string) (iw ih tw th margin : Z) : Z * Z :=
  if bool_decide (pos ∈ ["top-left"; "tl"]) then (margin, margin)
  else if bool_decide (pos ∈ ["top-right"; "tr"]) then (iw - tw - margin, margin)
  else if bool_decide (pos ∈ ["bottom-left"; "bl"]) then (margin, ih - th - margin)
  else if bool_decide (pos ∈ ["bottom-right"; "br"])
    then (iw - tw - margin, ih - th - margin)
  else if bool_decide (pos ∈ ["center"; "c"])
    then ((iw - tw) `div` 2, (ih - th) `div` 2)
  else (margin, margin).

Lemma eqb_or_elem (pos a b : string) :
  (pos =? a) || (pos =? b) = bool_decide (pos ∈ [a; b]).
Proof.
  destruct (String.eqb_spec pos a) as [-> | Ha]; simpl.
  - symmetry. apply bool_decide_eq_true. apply elem_of_cons. by left.
  - destruct (String.eqb_spec pos b) as [-> | Hb]; symmetry.
    + apply bool_decide_eq_true. apply elem_of_cons. right.
      by apply list_elem_of_singleton.
    + apply bool_decide_eq_false.
      rewrite elem_of_cons, list_elem_of_singleton. tauto.
Qed.

Lemma place_text_position_anchor iw ih tw th position margin :
  place_text_position (iw, ih) (tw, th) position margin
  = anchor_of (lower position) iw ih tw th margin.
Proof.
  unfold place_text_position, anchor_of. rewrite !eqb_or_elem. reflexivity.
Qed.

Lemma place_text_position_unknown iw ih tw th position margin :
  lower position ∉ known_placements →
  place_text_position (iw, ih) (tw, th) position margin = (margin, margin).
Proof.
  intros H. rewrite place_text_position_anchor. unfold anchor_of.
  repeat (rewrite bool_decide_eq_false_2;
          [| intros Hin; apply H; unfold known_placements;
             rewrite elem_of_cons, list_elem_of_singleton in Hin;
             rewrite !elem_of_cons; tauto]).
  reflexivity.
Qed.

End Properties.

Lemma place_top_left iw ih tw th m :
  place_text_position (iw, ih) (tw, th) "top-left" m = (m, m).
Proof. reflexivity. Qed.

Lemma place_top_right iw ih tw th m :
  place_text_position (iw, ih) (tw, th) "top-right" m = (iw - tw - m, m).
Proof. reflexivity. Qed.

Lemma place_bottom_left iw ih tw th m :
  place_text_position (iw, ih) (tw, th) "bottom-left" m = (m, ih - th - m).
Proof. reflexivity. Qed.

Lemma place_bottom_right iw ih tw th m :
  place_text_position (iw, ih) (tw, th) "bottom-right" m
  = (iw - tw - m, ih - th - m).
Proof. reflexivity. Qed.

Lemma place_center iw ih tw th m :
  place_text_position (iw, ih) (tw, th) "center" m
  = ((iw - tw) `div` 2, (ih - th) `div` 2).
Proof. reflexivity. Qed.

(** C2: for every image size, text extent and margin, the anchor is (m, m)
    for top-left, (iw - tw - m, m) for top-right, (m, ih - th - m) for
    bottom-left, (iw - tw - m, ih - th - m) for bottom-right, and for center
    the point that centers the box on both axes (the gaps on the two sides
    differ by at most one pixel); a name that is none of the known ones,
    after lowering, gives the top-left anchor.  For image (200,100), text
    (50,20) and margin 10: bottom-right is (140, 70), center is (75, 40),
    top-left is (10, 10). *)
Theorem C2_place_text_position (iw ih tw th m : Z) :
  place_text_position (iw, ih) (tw, th) "top-left" m = (m, m)
  ∧ place_text_position (iw, ih) (tw, th) "top-right" m = (iw - tw - m, m)
  ∧ place_text_position (iw, ih) (tw, th) "bottom-left" m = (m, ih - th - m)
  ∧ place_text_position (iw, ih) (tw, th) "bottom-right" m
    = (iw - tw - m, ih - th - m)
  ∧ (∃ x y, place_text_position (iw, ih) (tw, th) "center" m = (x, y)
            ∧ (0 ≤ (iw - (x + tw)) - x ≤ 1)%Z
            ∧ (0 ≤ (ih - (y + th)) - y ≤ 1)%Z)
  ∧ (∀ position, lower position ∉ known_placements →
       place_text_position (iw, ih) (tw, th) position m
       = place_text_position (iw, ih) (tw, th) "top-left" m)
  ∧ place_text_position (200, 100) (50, 20) "bottom-right" 10 = (140, 70)
  ∧ place_text_position (200, 100) (50, 20) "center" 10 = (75, 40)
  ∧ place_text_position (200, 100) (50, 20) "top-left" 10 = (10, 10).
Proof.
  repeat split; try reflexivity.
  - exists ((iw - tw) `div` 2), ((ih - th) `div` 2).
    split; [reflexivity |].
    pose proof (Z.div_mod (iw - tw) 2 ltac:(lia)).
    pose proof (Z.mod_pos_bound (iw - tw) 2 ltac:(lia)).
    pose proof (Z.div_mod (ih - th) 2 ltac:(lia)).
    pose proof (Z.mod_pos_bound (ih - th) 2 ltac:(lia)).
    lia.
  - intros position H. by apply place_text_position_unknown.
Qed.

(** An unknown name ('middle') on a 200 by 100 image falls back to the
    top-left anchor. *)
Lemma C2_place_text_position_witness :
  place_text_position (200, 100) (50, 20) "middle" 10
  = place_text_position (200, 100) (50, 20) "top-left" 10.
Proof.
  destruct (C2_place_text_position 200 100 50 20 10)
    as (_ & _ & _ & _ & _ & H & _).
  apply H. apply (bool_decide_unpack _). vm_compute. exact I.
Defined.

(** C10: the anchor is the arithmetic of its formula at every integer input
    and is not clamped to the image: at image (100,50), text (200,20),
    margin 10, bottom-right is (-110, 20); whenever the text is wider than
    the image less the margin, the right-aligned anchors are negative and a
    left-aligned box runs past the right edge, and likewise downwards. *)
Theorem C10_anchor_not_clamped :
  place_text_position (100, 50) (200, 20) "bottom-right" 10 = (-110, 20)
  ∧ (∀ iw ih tw th m position,
       place_text_position (iw, ih) (tw, th) position m
       = anchor_of (lower position) iw ih tw th m)
  ∧ (∀ iw ih tw th m, iw - m < tw →
       (place_text_position (iw, ih) (tw, th) "bottom-right" m).1 < 0
       ∧ (place_text_position (iw, ih) (tw, th) "top-right" m).1 < 0
       ∧ iw < (place_text_position (iw, ih) (tw, th) "top-left" m).1 + tw)
  ∧ (∀ iw ih tw th m, ih - m < th →
       (place_text_position (iw, ih) (tw, th) "bottom-right" m).2 < 0
       ∧ (place_text_position (iw, ih) (tw, th) "bottom-left" m).2 < 0
       ∧ ih < (place_text_position (iw, ih) (tw, th) "top-left" m).2 + th).
Proof.
  split; [reflexivity |].
  split; [intros; apply place_text_position_anchor |].
  split; intros iw ih tw th m H;
    rewrite ?place_bottom_right, ?place_top_right, ?place_bottom_left,
      ?place_top_left; simpl; lia.
Qed.

(** The text of C10's example is wider than its image. *)
Lemma C10_anchor_not_clamped_witness :
  (place_text_position (100, 50) (200, 20) "bottom-right" 10).1 < 0
  ∧ (place_text_position (100, 50) (200, 20) "top-right" 10).1 < 0
  ∧ 100 < (place_text_position (100, 50) (200, 20) "top-left" 10).1 + 200.
Proof.
  destruct C10_anchor_not_clamped as (_ & _ & H & _).
  apply (H 100 50 200 20 10). lia.
Defined.

(** ** Colors *)

Section ColorProperties.
Context `{IM : ImagingLib}.

Lemma parse_color_cases s :
  parse_color s =
  match getrgb s with
  | Ret [r; g; b] => Ret [r; g; b; 255]
  | Ret [r; g; b; a] => Ret [r; g; b; a]
  | _ => Ret white
  end.
Proof.
  unfold parse_color.
  destruct (getrgb s) as [[| r [| g [| b [| a [| x rest]]]]] | e]; reflexivity.
Qed.

Lemma parse_color_rgba s : ∃ r g b a, parse_color s = Ret [r; g; b; a].
Proof.
  rewrite parse_color_cases. unfold white.
  destruct (getrgb s) as [[| r [| g [| b [| a [| x rest]]]]] | e]; eauto.
Qed.

End ColorProperties.

(** C5: for every string, [parse_color] returns and its value has four
    channels; three channels from the color library are widened with alpha
    255, four are passed on, and a failure of the library gives opaque white.
    With the reference color library, '#FF0000' is (255,0,0,255),
    '#FF000080' is (255,0,0,128) and 'not-a-color' is (255,255,255,255). *)
Theorem C5_parse_color :
  (∀ (IM : ImagingLib) (s : string),
     (∃ r g b a, parse_color s = Ret [r; g; b; a])
     ∧ (∀ r g b, getrgb s = Ret [r; g; b] → parse_color s = Ret [r; g; b; 255])
     ∧ (∀ r g b a, getrgb s = Ret [r; g; b; a] →
          parse_color s = Ret [r; g; b; a])
     ∧ (∀ e, getrgb s = Raise e → parse_color s = Ret [255; 255; 255; 255]))
  ∧ (∀ piexif fonts,
       @parse_color (ref_imaging piexif fonts) "#FF0000" = Ret [255; 0; 0; 255]
       ∧ @parse_color (ref_imaging piexif fonts) "#FF000080"
         = Ret [255; 0; 0; 128]
       ∧ @parse_color (ref_imaging piexif fonts) "not-a-color"
         = Ret [255; 255; 255; 255]).
Proof.
  split.
  - intros IM s. split; [apply parse_color_rgba |].
    repeat split; intros; rewrite parse_color_cases;
      match goal with H : getrgb _ = _ |- _ => rewrite H end; reflexivity.
  - intros piexif fonts. repeat split; vm_compute; reflexivity.
Qed.

(** The reference library reads 'red' as three channels; [parse_color] adds
    the alpha. *)
Lemma C5_parse_color_witness :
  @parse_color (ref_imaging true true) "red" = Ret [255; 0; 0; 255].
Proof.
  destruct C5_parse_color as (H & _).
  destruct (H (ref_imaging true true) "red") as (_ & H3 & _).
  apply H3. vm_compute. reflexivity.
Defined.

(** ** Date resolution *)




Section DateProperties.
Context `{DT : DateTimeLib} `{IM : ImagingLib} `{PF : !Platform}.

Lemma parse_date_value_cases v :
  parse_date_value v =
  match py_strptime (decode_value v) with
  | Ret dt => Ret (Some (strftime_ymd dt))
  | Raise _ =>
    match py_fromisoformat (decode_value v) with
    | Ret dt => Ret (Some (strftime_ymd dt))
    | Raise _ => Ret None
    end
  end.
Proof.
  unfold parse_date_value.
  destruct (py_strptime (decode_value v)); [reflexivity |]. simpl.
  destruct (py_fromisoformat (decode_value v)); reflexivity.
Qed.

Lemma parse_date_value_total v : ∃ r, parse_date_value v = Ret r.
Proof.
  rewrite parse_date_value_cases.
  destruct (py_strptime _); [eauto |]. destruct (py_fromisoformat _); eauto.
Qed.

Lemma parse_date_value_wf v d :
  parse_date_value v = Ret (Some d) → wf_datestamp d = true.
Proof.
  rewrite parse_date_value_cases.
  destruct (py_strptime _) as [dt | ?].
  - intros [= <-]. apply strftime_ymd_wf.
  - destruct (py_fromisoformat _) as [dt | ?]; [| discriminate].
    intros [= <-]. apply strftime_ymd_wf.
Qed.

Lemma parse_date_value_bytes b :
  parse_date_value (VBytes b) = parse_date_value (VStr (decode_utf8_ignore b)).
Proof. reflexivity. Qed.

Lemma tag_map_DateTimeOriginal : tag_map !! "DateTimeOriginal" = Some DateTimeOriginal.
Proof. vm_compute. reflexivity. Qed.

Lemma tag_map_DateTime : tag_map !! "DateTime" = Some DateTime.
Proof. vm_compute. reflexivity. Qed.

Lemma scan_tags_cases (exif : gmap Z TagValue) :
  scan_tags exif ["DateTimeOriginal"; "DateTime"] =
  match exif !! DateTimeOriginal with
  | Some v => parse_date_value v
  | None =>
    match exif !! DateTime with
    | Some v => parse_date_value v
    | None => Ret None
    end
  end.
Proof.
  cbn [scan_tags]. rewrite tag_map_DateTimeOriginal, tag_map_DateTime.
  change (negb (DateTimeOriginal =? 0)%Z) with true.
  change (negb (DateTime =? 0)%Z) with true. cbn [andb].
  destruct (exif !! DateTimeOriginal) as [v |] eqn:E1.
  - rewrite bool_decide_eq_true_2 by eauto. reflexivity.
  - rewrite bool_decide_eq_false_2 by (intros [? ?]; discriminate).
    destruct (exif !! DateTime) as [v |] eqn:E2.
    + rewrite bool_decide_eq_true_2 by eauto. reflexivity.
    + rewrite bool_decide_eq_false_2 by (intros [? ?]; discriminate).
      reflexivity.
Qed.

Lemma date_from_pillow_cases (exif : gmap Z TagValue) :
  date_from_pillow (Some exif) =
  match exif !! DateTimeOriginal with
  | Some v => parse_date_value v
  | None =>
    match exif !! DateTime with
    | Some v => parse_date_value v
    | None => Ret None
    end
  end.
Proof.
  unfold date_from_pillow.
  destruct (decide (exif = ∅)) as [-> | Hne].
  - rewrite (bool_decide_eq_true_2 (∅ =@{gmap Z TagValue} ∅)) by done.
    rewrite (bool_decide_eq_true_2 (∅ =@{gmap Z TagValue} ∅)) by done.
    rewrite !lookup_empty. reflexivity.
  - rewrite (bool_decide_eq_false_2 (exif = ∅)) by done.
    rewrite (bool_decide_eq_false_2 (exif = ∅)) by done.
    apply scan_tags_cases.
Qed.

Lemma date_from_pillow_None : date_from_pillow None = Ret None.
Proof. unfold date_from_pillow. by rewrite bool_decide_eq_true_2. Qed.

Lemma date_from_piexif_cases (exif_dict : gmap string (gmap Z TagValue)) :
  date_from_piexif exif_dict =
  let original := default ∅ (exif_dict !! "Exif") !! DateTimeOriginal in
  let generic := default ∅ (exif_dict !! "0th") !! DateTime in
  if truthy original then from_option parse_date_value (Ret None) original
  else match generic with
       | Some v => if value_truthy v then parse_date_value v else Ret None
       | None => Ret None
       end.
Proof.
  unfold date_from_piexif. cbv zeta.
  destruct (default ∅ (exif_dict !! "Exif") !! DateTimeOriginal) as [v |] eqn:E1.
  - rewrite (bool_decide_eq_true_2 (is_Some (Some v))) by eauto.
    simpl. destruct (value_truthy v) eqn:Ev; simpl.
    + rewrite Ev. reflexivity.
    + destruct (default ∅ (exif_dict !! "0th") !! DateTime) as [v' |] eqn:E2.
      * rewrite bool_decide_eq_true_2 by eauto. reflexivity.
      * rewrite bool_decide_eq_false_2 by (intros [? ?]; discriminate).
        rewrite Ev. reflexivity.
  - rewrite (bool_decide_eq_false_2 (is_Some None)) by (intros [? ?]; discriminate).
    simpl.
    destruct (default ∅ (exif_dict !! "0th") !! DateTime) as [v' |] eqn:E2.
    + rewrite bool_decide_eq_true_2 by eauto. reflexivity.
    + rewrite bool_decide_eq_false_2 by (intros [? ?]; discriminate).
      reflexivity.
Qed.

Lemma date_from_piexif_total d : ∃ r, date_from_piexif d = Ret r.
Proof.
  rewrite date_from_piexif_cases. cbv zeta.
  destruct (truthy _).
  - destruct (_ !! DateTimeOriginal); simpl; [apply parse_date_value_total | eauto].
  - destruct (_ !! DateTime) as [v |]; [| eauto].
    destruct (value_truthy v); [apply parse_date_value_total | eauto].
Qed.

Lemma date_from_piexif_wf d s :
  date_from_piexif d = Ret (Some s) → wf_datestamp s = true.
Proof.
  rewrite date_from_piexif_cases. cbv zeta.
  destruct (truthy _).
  - destruct (_ !! DateTimeOriginal); simpl; [apply parse_date_value_wf | discriminate].
  - destruct (_ !! DateTime) as [v |]; [| discriminate].
    destruct (value_truthy v); [apply parse_date_value_wf | discriminate].
Qed.

Lemma date_from_pillow_wf g s :
  date_from_pillow g = Ret (Some s) → wf_datestamp s = true.
Proof.
  destruct g as [exif |]; [| by rewrite date_from_pillow_None].
  rewrite date_from_pillow_cases.
  destruct (exif !! DateTimeOriginal); [apply parse_date_value_wf |].
  destruct (exif !! DateTime); [apply parse_date_value_wf | discriminate].
Qed.

(** [get_exif_date] returns, whatever happens inside, and writes nothing. *)
Lemma get_exif_date_total path fs :
  ∃ r, get_exif_date path fs = (Ret r, fs).
Proof.
  pose proof (readonly_get_exif_date path fs) as Hro.
  unfold get_exif_date, try_fs in *.
  destruct (get_exif_date_body path fs) as [[r | e] fs'];
    simpl in Hro; subst; eauto.
Qed.


Lemma get_exif_date_returns path fs r fs' :
  get_exif_date_body path fs = (Ret r, fs') →
  get_exif_date path fs = (Ret r, fs').
Proof. intros H. unfold get_exif_date, try_fs. rewrite H. reflexivity. Qed.

(** With piexif, a file that piexif loads. *)
Lemma get_exif_date_piexif path fs mtime data d :
  _HAS_PIEXIF = true → fs !! path = Some (NFile mtime data) →
  piexif_load data = Ret d →
  get_exif_date path fs = (date_from_piexif d, fs).
Proof.
  intros Hp Hf Hl.
  destruct (date_from_piexif_total d) as [r Hr]. rewrite Hr.
  apply get_exif_date_returns. unfold get_exif_date_body. rewrite Hp.
  rewrite fsm_bind_run. unfold read_file. rewrite Hf.
  rewrite fsm_bind_run. unfold lift. rewrite Hl, Hr. reflexivity.
Qed.

(** Without piexif, a file that Pillow opens and reads the metadata of. *)
Lemma get_exif_date_pillow path fs mtime data img g :
  _HAS_PIEXIF = false → fs !! path = Some (NFile mtime data) →
  image_decode data = Ret img → image_getexif img = Ret g →
  get_exif_date path fs = (try_except (date_from_pillow g) (λ _, Ret None), fs).
Proof.
  intros Hp Hf Hd Hg.
  unfold get_exif_date, try_fs, get_exif_date_body. rewrite Hp.
  rewrite fsm_bind_run. unfold Image_open. rewrite fsm_bind_run.
  unfold read_file. rewrite Hf. unfold lift. rewrite Hd.
  rewrite fsm_bind_run. rewrite Hg.
  destruct (date_from_pillow g); reflexivity.
Qed.

Lemma get_exif_date_wf path fs s fs' :
  get_exif_date path fs = (Ret (Some s), fs') → wf_datestamp s = true.
Proof.
  unfold get_exif_date, try_fs.
  destruct (get_exif_date_body path fs) as [[r | e] fs1] eqn:E;
    [| intros [=]].
  intros [= -> ->]. unfold get_exif_date_body in E.
  destruct _HAS_PIEXIF.
  - apply fsm_bind_inv in E as (data & fs2 & _ & E).
    apply fsm_bind_inv in E as (d & fs3 & _ & E).
    apply lift_inv in E as [E _]. by eapply date_from_piexif_wf.
  - apply fsm_bind_inv in E as (img & fs2 & _ & E).
    apply fsm_bind_inv in E as (g & fs3 & _ & E).
    apply lift_inv in E as [E _]. by eapply date_from_pillow_wf.
Qed.



Lemma resolve_date_found path fs d :
  get_exif_date path fs = (Ret (Some d), fs) →
  resolve_date path fs = (Ret d, fs).
Proof.
  intros H. unfold resolve_date. rewrite fsm_bind_run, H.
  pose proof (get_exif_date_wf _ _ _ _ H) as Hwf.
  destruct (String.eqb_spec d "") as [-> | Hne]; [discriminate |].
  reflexivity.
Qed.




End DateProperties.

(** The Exif and the 0th IFD of a dictionary that piexif loaded. *)
Definition exif_ifd (d : gmap string (gmap Z TagValue)) : gmap Z TagValue :=
  default ∅ (d !! "Exif").






(** ** Ordering of paths *)

Section Lex.
Context {A : Type} (cmp : A → A → comparison).
Hypothesis cmp_eq : ∀ x y, cmp x y = Eq → x = y.
Hypothesis cmp_refl : ∀ x, cmp x x = Eq.
Hypothesis cmp_antisym : ∀ x y, cmp x y = CompOpp (cmp y x).
Hypothesis cmp_trans : ∀ x y z, cmp x y = Lt → cmp y z = Lt → cmp x z = Lt.

Lemma lex_compare_eq l1 : ∀ l2, lex_compare cmp l1 l2 = Eq → l1 = l2.
Proof.
  induction l1 as [| x l1 IH]; intros [| y l2]; simpl; try done.
  destruct (cmp x y) eqn:E; try done.
  intros H. apply cmp_eq in E as ->. f_equal. by apply IH.
Qed.

Lemma lex_compare_refl l : lex_compare cmp l l = Eq.
Proof. induction l as [| x l IH]; simpl; [done |]. by rewrite cmp_refl. Qed.

Lemma lex_compare_antisym l1 : ∀ l2,
  lex_compare cmp l1 l2 = CompOpp (lex_compare cmp l2 l1).
Proof.
  induction l1 as [| x l1 IH]; intros [| y l2]; simpl; try done.
  rewrite (cmp_antisym x y). destruct (cmp y x); simpl; auto.
Qed.

Lemma lex_compare_trans l1 : ∀ l2 l3,
  lex_compare cmp l1 l2 = Lt → lex_compare cmp l2 l3 = Lt →
  lex_compare cmp l1 l3 = Lt.
Proof.
  induction l1 as [| x l1 IH]; intros [| y l2] [| z l3]; simpl; try done.
  destruct (cmp x y) eqn:Exy; try done.
  - apply cmp_eq in Exy as ->. destruct (cmp y z); try done. apply IH.
  - intros _. destruct (cmp y z) eqn:Eyz; try done.
    + apply cmp_eq in Eyz as ->. by rewrite Exy.
    + by rewrite (cmp_trans _ _ _ Exy Eyz).
Qed.

(** Under a common prefix the last parts decide. *)
Lemma lex_compare_snoc p a b :
  lex_compare cmp (p ++ [a]) (p ++ [b]) = cmp a b.
Proof.
  induction p as [| x p IH]; simpl.
  - by destruct (cmp a b).
  - by rewrite cmp_refl.
Qed.

Lemma lex_le_total l1 l2 :
  lex_compare cmp l1 l2 ≠ Gt ∨ lex_compare cmp l2 l1 ≠ Gt.
Proof.
  rewrite (lex_compare_antisym l1 l2).
  destruct (lex_compare cmp l2 l1); simpl; auto.
Qed.

Lemma lex_le_trans l1 l2 l3 :
  lex_compare cmp l1 l2 ≠ Gt → lex_compare cmp l2 l3 ≠ Gt →
  lex_compare cmp l1 l3 ≠ Gt.
Proof.
  destruct (lex_compare cmp l1 l2) eqn:E12; [| | done].
  - apply lex_compare_eq in E12 as ->. auto.
  - intros _. destruct (lex_compare cmp l2 l3) eqn:E23; [| | done].
    + apply lex_compare_eq in E23 as <-. by rewrite E12.
    + by rewrite (lex_compare_trans _ _ _ E12 E23).
Qed.

End Lex.

Lemma N_compare_trans (x y z : N) :
  (x ?= y)%N = Lt → (y ?= z)%N = Lt → (x ?= z)%N = Lt.
Proof. rewrite !N.compare_lt_iff. lia. Qed.

Lemma codes_inj (a b : string) :
  N_of_ascii <$> list_ascii_of_string a = N_of_ascii <$> list_ascii_of_string b →
  a = b.
Proof.
  intros H.
  rewrite <- (string_of_list_ascii_of_string a),
          <- (string_of_list_ascii_of_string b).
  f_equal. revert H.
  generalize (list_ascii_of_string a) (list_ascii_of_string b).
  induction l as [| x l IH]; intros [| y l']; simpl; try done.
  intros [= Hxy Hl]. f_equal; [| by apply IH].
  by rewrite <- (ascii_N_embedding x), <- (ascii_N_embedding y), Hxy.
Qed.

Lemma str_compare_eq a b : str_compare a b = Eq → a = b.
Proof.
  intros H. apply codes_inj. revert H. apply lex_compare_eq.
  intros x y. apply N.compare_eq.
Qed.

Lemma str_compare_refl a : str_compare a a = Eq.
Proof. apply lex_compare_refl. apply N.compare_refl. Qed.

Lemma str_compare_antisym a b : str_compare a b = CompOpp (str_compare b a).
Proof. apply lex_compare_antisym. intros x y. apply N.compare_antisym. Qed.

Lemma str_compare_trans a b c :
  str_compare a b = Lt → str_compare b c = Lt → str_compare a c = Lt.
Proof.
  apply lex_compare_trans.
  - intros x y. apply N.compare_eq.
  - apply N_compare_trans.
Qed.

#[export] Instance path_le_total : Total path_le.
Proof. intros p q. apply lex_le_total. apply str_compare_antisym. Qed.

#[export] Instance path_le_trans : Transitive path_le.
Proof.
  intros p q r. apply lex_le_trans.
  - apply str_compare_eq.
  - apply str_compare_trans.
Qed.

(** Two entries of one directory compare as their names do. *)
Lemma path_le_siblings p a b : path_le (p ++ [a]) (p ++ [b]) ↔ str_le a b.
Proof.
  unfold path_le, path_compare, str_le.
  by rewrite (lex_compare_snoc _ str_compare_refl).
Qed.

Lemma StronglySorted_filter {A} (R : A → A → Prop) (P : A → Prop)
    `{∀ x, Decision (P x)} l :
  StronglySorted R l → StronglySorted R (filter P l).
Proof.
  induction 1 as [| x l Hl IH Hx]; [constructor |].
  rewrite filter_cons. destruct (decide (P x)); [| done].
  constructor; [done |].
  rewrite Forall_forall in *. intros y Hy.
  apply list_elem_of_filter in Hy as [_ Hy]. by apply Hx.
Qed.

Lemma StronglySorted_weaken {A} (R R' : A → A → Prop) l :
  (∀ x y, x ∈ l → y ∈ l → R x y → R' x y) →
  StronglySorted R l → StronglySorted R' l.
Proof.
  intros HR Hs. induction Hs as [| x l Hl IH Hx]; [constructor |].
  constructor.
  - apply IH. intros a b Ha Hb. apply HR; by apply elem_of_cons; right.
  - apply Forall_forall. intros y Hy. apply HR.
    + apply elem_of_cons. by left.
    + apply elem_of_cons. by right.
    + rewrite Forall_forall in Hx. by apply Hx.
Qed.

(** ** Names and extensions *)

Lemma path_name_parent q p :
  q ≠ p → path_parent q = p → q = (p ++ [path_name q])%list.
Proof.
  unfold path_parent, path_name. intros Hne Hp.
  destruct (decide (q = ["/"])) as [-> | Hq].
  - rewrite bool_decide_eq_true_2 in Hp by done. congruence.
  - rewrite bool_decide_eq_false_2 in * by done. subst p.
    destruct (decide (q = [])) as [-> | Hnil]; [done |].
    by apply app_removelast_last.
Qed.

Lemma lower_ascii_dot c : Ascii.eqb (lower_ascii c) "." = Ascii.eqb c ".".
Proof. destruct c as [[] [] [] [] [] [] [] []]; reflexivity. Qed.

Lemma lower_ascii_idemp c : lower_ascii (lower_ascii c) = lower_ascii c.
Proof. destruct c as [[] [] [] [] [] [] [] []]; reflexivity. Qed.

Lemma lower_idemp s : lower (lower s) = lower s.
Proof.
  induction s as [| c s IH]; simpl; [done |].
  by rewrite lower_ascii_idemp, IH.
Qed.

Lemma lower_length s : String.length (lower s) = String.length s.
Proof. induction s as [| c s IH]; simpl; [done |]. by rewrite IH. Qed.

Lemma rfind_dot_lower s : rfind_dot (lower s) = rfind_dot s.
Proof.
  induction s as [| c s IH]; simpl; [done |].
  by rewrite IH, lower_ascii_dot.
Qed.

Lemma substring_lower s : ∀ i k,
  String.substring i k (lower s) = lower (String.substring i k s).
Proof.
  induction s as [| c s IH]; intros [| i] [| k]; simpl; try done;
    by rewrite IH.
Qed.

(** Lowering a name lowers its suffix. *)
Lemma name_suffix_lower s : name_suffix (lower s) = lower (name_suffix s).
Proof.
  unfold name_suffix. rewrite rfind_dot_lower, lower_length.
  destruct (rfind_dot s) as [i |]; [| done].
  destruct (_ && _); [| done]. apply substring_lower.
Qed.

(** ** Target enumeration *)

Lemma supported_iff f :
  supported f = true ↔ lower (path_suffix f) ∈ SUPPORTED_EXTS.
Proof. unfold supported. apply bool_decide_eq_true. Qed.

(** Names that differ in case only are supported alike. *)
Lemma supported_case f g :
  lower (path_name f) = lower (path_name g) → supported f = supported g.
Proof.
  intros H. unfold supported, path_suffix.
  by rewrite <- !name_suffix_lower, H.
Qed.

Section TargetProperties.
Context `{DT : DateTimeLib} `{IM : ImagingLib} `{PF : !Platform}.

Definition is_regular (fs : FS) (f : Path) : bool :=
  match fs !! f with Some (NFile _ _) => true | _ => false end.

(** What the directory loop lets through. *)
Definition eligible (fs : FS) (f : Path) : Prop :=
  is_regular fs f && supported f = true.

#[local] Instance eligible_dec fs f : Decision (eligible fs f).
Proof. unfold eligible. apply _. Defined.

Lemma is_regular_iff (fs : FS) f :
  is_regular fs f = true ↔ ∃ mtime data, fs !! f = Some (NFile mtime data).
Proof.
  unfold is_regular. destruct (fs !! f) as [[mt d | |] |]; split;
    try done; eauto; by intros (? & ? & ?).
Qed.

Lemma yield_files_filter (l : list Path) (fs : FS) :
  yield_files l fs = (Ret (filter (eligible fs) l), fs).
Proof.
  induction l as [| f rest IH]; [reflexivity |].
  simpl. rewrite fsm_bind_run. unfold is_file at 1. rewrite filter_cons.
  unfold eligible at 1, is_regular.
  destruct (decide _) as [He | He].
  - rewrite He. rewrite fsm_bind_run, IH. reflexivity.
  - apply not_true_is_false in He. rewrite He. apply IH.
Qed.

Lemma elem_of_children (fs : FS) p q :
  q ∈ children fs p ↔ is_Some (fs !! q) ∧ q ≠ p ∧ path_parent q = p.
Proof.
  unfold children. rewrite list_elem_of_filter, list_elem_of_fmap. split.
  - intros [[Hne Hp] [[k v] [-> Hin]]]. apply elem_of_map_to_list in Hin.
    simpl in *. eauto.
  - intros ([v Hv] & Hne & Hp). split; [done |].
    exists (q, v). split; [done |]. by apply elem_of_map_to_list.
Qed.

Lemma NoDup_children (fs : FS) p : NoDup (children fs p).
Proof. apply NoDup_filter, NoDup_fst_map_to_list. Qed.

Lemma gather_targets_dir (fs : FS) p :
  fs !! p = Some NDir →
  gather_targets p fs = (Ret (filter (eligible fs) (sorted (children fs p))), fs).
Proof.
  intros Hd. unfold gather_targets. rewrite fsm_bind_run.
  unfold is_dir at 1. rewrite Hd. rewrite fsm_bind_run.
  unfold iterdir. rewrite Hd. apply yield_files_filter.
Qed.

Lemma gather_targets_file (fs : FS) p mtime data :
  fs !! p = Some (NFile mtime data) →
  gather_targets p fs = (Ret (if supported p then [p] else []), fs).
Proof.
  intros Hf. unfold gather_targets. rewrite fsm_bind_run.
  unfold is_dir at 1. rewrite Hf. rewrite fsm_bind_run.
  unfold is_file. rewrite Hf. by destruct (supported p).
Qed.

Lemma gather_targets_other (fs : FS) p :
  fs !! p = None ∨ fs !! p = Some NOther →
  gather_targets p fs = (Ret [], fs).
Proof.
  intros Hf. unfold gather_targets. rewrite fsm_bind_run.
  unfold is_dir at 1.
  destruct Hf as [Hf | Hf]; rewrite Hf; rewrite fsm_bind_run;
    unfold is_file; by rewrite Hf.
Qed.

Lemma elem_of_targets (fs : FS) p f :
  f ∈ filter (eligible fs) (sorted (children fs p)) ↔
  path_parent f = p ∧ f ≠ p
  ∧ (∃ mtime data, fs !! f = Some (NFile mtime data))
  ∧ lower (path_suffix f) ∈ SUPPORTED_EXTS.
Proof.
  rewrite list_elem_of_filter. unfold sorted.
  rewrite merge_sort_Permutation, elem_of_children.
  unfold eligible. rewrite andb_true_iff, is_regular_iff, supported_iff.
  split.
  - intros [[Hr Hs] (_ & Hne & Hp)]. done.
  - intros (Hp & Hne & (mt & d & Hf) & Hs). rewrite Hf. eauto 10.
Qed.

Lemma NoDup_targets (fs : FS) p :
  NoDup (filter (eligible fs) (sorted (children fs p))).
Proof.
  apply NoDup_filter. unfold sorted.
  rewrite merge_sort_Permutation. apply NoDup_children.
Qed.

Lemma targets_sorted (fs : FS) p :
  StronglySorted (λ a b, str_le (path_name a) (path_name b))
    (filter (eligible fs) (sorted (children fs p))).
Proof.
  eapply StronglySorted_weaken;
    [| apply StronglySorted_filter, StronglySorted_merge_sort; apply _].
  intros a b Ha Hb Hab.
  apply elem_of_targets in Ha as (Hpa & Hna & _).
  apply elem_of_targets in Hb as (Hpb & Hnb & _).
  rewrite (path_name_parent a p Hna Hpa), (path_name_parent b p Hnb Hpb) in Hab.
  by apply path_le_siblings in Hab.
Qed.

End TargetProperties.

(** C6: for a directory, [gather_targets] yields exactly its direct
    children that are files and whose suffix, lowered, is one of .jpg, .jpeg,
    .png, .tiff, .tif, .webp, .bmp; each once, in the lexicographic order of
    the names; a subdirectory is never among them.  For a file it yields the
    file if and only if its suffix is supported, and for any other path
    nothing.  Names that differ only in case are treated alike. *)
Theorem C6_gather_targets :
  ∀ (DT : DateTimeLib) (IM : ImagingLib) (fs : gmap Path node) (p : Path),
    (fs !! p = Some NDir →
       ∃ ts, gather_targets p fs = (Ret ts, fs)
         ∧ (∀ f, f ∈ ts ↔
              path_parent f = p ∧ f ≠ p
              ∧ (∃ mtime data, fs !! f = Some (NFile mtime data))
              ∧ lower (path_suffix f) ∈ SUPPORTED_EXTS)
         ∧ NoDup ts
         ∧ StronglySorted (λ a b, str_le (path_name a) (path_name b)) ts
         ∧ (∀ f, f ∈ ts → fs !! f ≠ Some NDir))
    ∧ (∀ mtime data, fs !! p = Some (NFile mtime data) →
         gather_targets p fs
         = (Ret (if bool_decide (lower (path_suffix p) ∈ SUPPORTED_EXTS)
                 then [p] else []), fs))
    ∧ (fs !! p = None ∨ fs !! p = Some NOther →
         gather_targets p fs = (Ret [], fs))
    ∧ (∀ f g : Path, lower (path_name f) = lower (path_name g) →
         (lower (path_suffix f) ∈ SUPPORTED_EXTS
          ↔ lower (path_suffix g) ∈ SUPPORTED_EXTS))
    ∧ elements SUPPORTED_EXTS
      ≡ₚ [".jpg"; ".jpeg"; ".png"; ".tiff"; ".tif"; ".webp"; ".bmp"].
Proof.
  intros DT IM fs p. split; [| split; [| split; [| split]]].
  - intros Hd. eexists. split; [by apply gather_targets_dir |].
    split; [apply elem_of_targets |].
    split; [apply NoDup_targets |].
    split; [apply targets_sorted |].
    intros f Hf. apply elem_of_targets in Hf as (_ & _ & (mt & d & Hf) & _).
    by rewrite Hf.
  - intros mtime data Hf. by erewrite gather_targets_file.
  - apply gather_targets_other.
  - intros f g H. rewrite <- !supported_iff. by rewrite (supported_case f g).
  - apply NoDup_Permutation.
    + apply NoDup_elements.
    + apply (bool_decide_unpack _). vm_compute. exact I.
    + intros x. rewrite elem_of_elements. unfold SUPPORTED_EXTS.
      rewrite !elem_of_union, !elem_of_singleton, !elem_of_cons, elem_of_nil.
      tauto.
Qed.

(** photos/ holds three images, a text file and a directory named like an
    image: the targets are the three images, by name. *)
Lemma C6_gather_targets_witness :
  ∃ ts, @gather_targets ref_datetime (ref_imaging true true) ["photos"]
          (Demo.photos true true) = (Ret ts, Demo.photos true true)
    ∧ ts = [["photos"; "a.jpg"]; ["photos"; "b.jpg"]; ["photos"; "c.png"]]
    ∧ StronglySorted (λ a b, str_le (path_name a) (path_name b)) ts.
Proof.
  destruct (C6_gather_targets ref_datetime (ref_imaging true true)
              (Demo.photos true true) ["photos"]) as (H & _).
  destruct H as (ts & Hts & _ & _ & Hs & _); [reflexivity |].
  exists ts. split; [exact Hts |]. split; [| exact Hs].
  assert (E : @gather_targets ref_datetime (ref_imaging true true) ["photos"]
            (Demo.photos true true)
          = (Ret [["photos"; "a.jpg"]; ["photos"; "b.jpg"]; ["photos"; "c.png"]],
             Demo.photos true true)) by (reflexivity).
  rewrite E in Hts. by injection Hts.
Defined.

(** ** Rendering *)

Section RenderProperties.
Context `{DT : DateTimeLib} `{IM : ImagingLib} `{PF : !Platform}.

(** The loop over the candidates never raises. *)
Lemma try_candidates_total cands font_size fs :
  ∃ r, try_candidates cands font_size fs = (Ret r, fs).
Proof.
  induction cands as [| p rest IH]; [by eexists |].
  cbn [try_candidates]. rewrite fsm_bind_run.
  match goal with |- context [try_fs ?m ?h fs] =>
    assert (Ht : ∃ r, try_fs m h fs = (Ret r, fs)) end.
  { unfold try_fs. rewrite fsm_bind_run. unfold os_path_exists, path_exists.
    destruct (bool_decide _); [| by eexists].
    rewrite fsm_bind_run. unfold lift.
    destruct (truetype p font_size); by eexists. }
  destruct Ht as [[font |] ->]; [by eexists | apply IH].
Qed.

(** With a default font to fall back on, there is always a font. *)
Lemma ensure_font_with_default font_size fs font0 :
  load_default = Ret font0 → ∃ font, ensure_font font_size fs = (Ret font, fs).
Proof.
  intros Hd. unfold ensure_font. rewrite fsm_bind_run.
  destruct (try_candidates_total font_candidates font_size fs) as [[font |] ->].
  - by eexists.
  - unfold try_fs, lift. rewrite Hd. by eexists.
Qed.

(** What a successful [draw_watermark] went through: the RGBA working copy,
    the composited RGBA image and, for a source that is not RGBA, the
    conversion back. *)
Lemma draw_watermark_inv image text font_size color position fs out fs' :
  draw_watermark image text font_size color position fs = (Ret out, fs') →
  ∃ base layer composited,
    (if negb (im_mode image =? "RGBA") then image_convert image "RGBA"
     else image_copy image) = Ret base
    ∧ alpha_composite base layer = Ret composited
    ∧ (if negb (im_mode image =? "RGBA")
       then image_convert composited (im_mode image) = Ret out
       else out = composited).
Proof.
  unfold draw_watermark. intros E.
  apply fsm_bind_inv in E as (base & fs1 & Eb & E).
  apply lift_inv in Eb as [Eb ->].
  apply fsm_bind_inv in E as (layer0 & fs2 & _ & E).
  apply fsm_bind_inv in E as (font & fs3 & _ & E).
  apply fsm_bind_inv in E as ([tw th] & fs4 & _ & E).
  destruct (place_text_position _ _ _ _) as [x y].
  apply fsm_bind_inv in E as (layer1 & fs5 & _ & E).
  apply fsm_bind_inv in E as (layer2 & fs6 & _ & E).
  apply fsm_bind_inv in E as (composited & fs7 & Ec & E).
  apply lift_inv in Ec as [Ec ->].
  exists base, layer2, composited. split; [done |]. split; [done |].
  destruct (negb (im_mode image =? "RGBA")).
  - by apply lift_inv in E as [E _].
  - by injection E as <- _.
Qed.

Lemma draw_watermark_mode image text font_size color position fs out fs' :
  draw_watermark image text font_size color position fs = (Ret out, fs') →
  im_mode out = im_mode image.
Proof.
  intros E. apply draw_watermark_inv in E as (base & layer & comp & _ & Hc & Ho).
  destruct (String.eqb_spec (im_mode image) "RGBA") as [Hm | Hm]; simpl in Ho.
  - subst out. rewrite Hm. by eapply alpha_composite_mode.
  - by eapply image_convert_mode.
Qed.

End RenderProperties.

(** C8: whenever [draw_watermark] returns an image, its mode is the mode of
    the source.  A source that is not RGBA is converted to RGBA, the
    composite is an RGBA image, and the result is the composite converted to
    the source's mode; for an RGBA source the result is the composite.  With
    the reference libraries a grayscale source comes back in grayscale. *)
Theorem C8_mode_preserved :
  (∀ (DT : DateTimeLib) (IM : ImagingLib)
     image text font_size color position fs out fs',
     draw_watermark image text font_size color position fs = (Ret out, fs') →
     im_mode out = im_mode image
     ∧ (im_mode image ≠ "RGBA" →
          ∃ base layer composited,
            image_convert image "RGBA" = Ret base
            ∧ im_mode base = "RGBA"
            ∧ alpha_composite base layer = Ret composited
            ∧ im_mode composited = "RGBA"
            ∧ image_convert composited (im_mode image) = Ret out)
     ∧ (im_mode image = "RGBA" →
          ∃ base layer, alpha_composite base layer = Ret out))
  ∧ (∀ piexif fs,
       ∃ out, @draw_watermark ref_datetime (ref_imaging piexif true)
                (Demo.photo "L" None) "2023-05-17" 10 [255; 255; 255; 255]
                "bottom-right" fs = (Ret out, fs)
         ∧ Reference.r_mode out = "L").
Proof.
  split.
  - intros DT IM image text font_size color position fs out fs' E.
    split; [by eapply draw_watermark_mode |].
    apply draw_watermark_inv in E as (base & layer & comp & Hb & Hc & Ho).
    split; intros Hm.
    + apply String.eqb_neq in Hm. rewrite Hm in Hb, Ho. simpl in *.
      exists base, layer, comp. repeat split; try done.
      * by eapply image_convert_mode.
      * by eapply alpha_composite_mode.
    + apply String.eqb_eq in Hm. rewrite Hm in Ho. simpl in Ho. subst.
      eauto.
  - intros piexif fs.
    destruct (@ensure_font_with_default ref_datetime (ref_imaging piexif true)
                10 fs _ eq_refl) as [font Hf].
    eexists. split.
    + unfold draw_watermark.
      erewrite fsm_bind_ret; [| reflexivity].
      erewrite fsm_bind_ret; [| reflexivity].
      erewrite fsm_bind_ret; [| exact Hf].
      reflexivity.
    + reflexivity.
Qed.

(** The grayscale photo of the folder, watermarked: grayscale. *)
Lemma C8_mode_preserved_witness :
  ∃ out, @draw_watermark ref_datetime (ref_imaging true true)
           (Demo.photo "L" None) "2000-02-29" 10 [255; 255; 255; 255]
           "bottom-right" (Demo.photos true true)
         = (Ret out, Demo.photos true true)
    ∧ Reference.r_mode out = "L".
Proof.
  eexists. split; [reflexivity |].
  destruct C8_mode_preserved as (H & _).
  match goal with |- Reference.r_mode ?o = _ =>
    refine (proj1 (H ref_datetime (ref_imaging true true)
                     (Demo.photo "L" None) "2000-02-29" 10
                     [255; 255; 255; 255] "bottom-right"
                     (Demo.photos true true) o (Demo.photos true true) _))
  end.
  reflexivity.
Defined.

(** ** The batch *)

Section BatchProperties.
Context `{DT : DateTimeLib} `{IM : ImagingLib} `{PF : !Platform}.

Lemma io_bind_run {A B} (m : IO A) (f : A → IO B) fs :
  (m ≫= f) fs =
  match m fs with
  | (Ret a, fs', out) =>
    let '(r, fs'', out') := f a fs' in (r, fs'', (out ++ out')%list)
  | (Raise e, fs', out) => (Raise e, fs', out)
  end.
Proof. reflexivity. Qed.

Lemma io_bind_run_ret {A B} (m : FSM A) (f : A → IO B) fs a fs' :
  m fs = (Ret a, fs') → (run m ≫= f) fs = f a fs'.
Proof.
  intros H. rewrite io_bind_run. unfold run. rewrite H.
  by destruct (f a fs') as [[r fs''] out'].
Qed.

Lemma io_bind_print {B} line (f : () → IO B) fs :
  (print line ≫= f) fs =
  let '(r, fs', out) := f () fs in (r, fs', line :: out).
Proof. reflexivity. Qed.

(** [process_image] catches whatever its body raises. *)
Lemma process_image_total path font_size color position out_dir fs :
  ∃ r fs', process_image path font_size color position out_dir fs
           = (Ret r, fs').
Proof.
  unfold process_image, try_fs.
  destruct (process_image_body _ _ _ _ _ fs) as [[r | e] fs']; eauto.
Qed.

Lemma process_image_failure path font_size color position out_dir fs e fs' :
  process_image_body path font_size color position out_dir fs = (Raise e, fs') →
  process_image path font_size color position out_dir fs
  = (Ret (path, false, "Error: " ++ exn_str e), fs').
Proof. intros H. unfold process_image, try_fs. by rewrite H. Qed.

Lemma process_image_body_result path font_size color position out_dir fs r fs' :
  process_image_body path font_size color position out_dir fs = (Ret r, fs') →
  r = (path_join out_dir (path_name path), true,
       "Saved -> " ++ path_str (path_join out_dir (path_name path))).
Proof.
  unfold process_image_body. intros E.
  apply fsm_bind_inv in E as (date & fs1 & _ & E).
  apply fsm_bind_inv in E as (img & fs2 & _ & E).
  apply fsm_bind_inv in E as (out_img & fs3 & _ & E).
  apply fsm_bind_inv in E as (u1 & fs4 & _ & E).
  apply fsm_bind_inv in E as (u2 & fs5 & _ & E).
  by injection E as <- _.
Qed.


(** The results of the batch, one file after the other. *)
Fixpoint process_all (targets : list Path) (font_size : Z) (color : list Z)
    (position : string) (out_dir : Path) : FSM (list ProcessResult) :=
  match targets with
  | [] => mret []
  | t :: rest =>
    r ← process_image t font_size color position out_dir;
    rs ← process_all rest font_size color position out_dir;
    mret (r :: rs)
  end.

(** The number of results that carry the success flag. *)
Definition successes (rs : list ProcessResult) : Z :=
  Z.of_nat (length (filter (λ r : ProcessResult, r.1.2 = true) rs)).

(** The lines of [main]'s loop. *)
Definition file_lines (targets : list Path) (rs : list ProcessResult)
    : list string :=
  zip_with (λ t (r : ProcessResult), file_line t r.2) targets rs.



Lemma successes_cons (r : ProcessResult) rs :
  successes (r :: rs) = ((if r.1.2 then 1 else 0) + successes rs)%Z.
Proof.
  unfold successes. rewrite filter_cons.
  destruct r as [[p ok] msg]. destruct ok; cbn [fst snd].
  - rewrite decide_True by done. cbn [length]. lia.
  - rewrite decide_False by done. lia.
Qed.

(** The loop of [main] never stops early: it prints one line for each
    target and counts the successes. *)
Lemma main_loop_spec targets font_size color position out_dir :
  ∀ success fs rs fs',
    process_all targets font_size color position out_dir fs = (Ret rs, fs') →
    main_loop targets font_size color position out_dir success fs
    = (Ret (success + successes rs)%Z, fs', file_lines targets rs).
Proof.
  induction targets as [| t rest IH]; intros success fs rs fs' H.
  - injection H as <- <-. cbn. unfold successes. simpl.
    by rewrite Z.add_0_r.
  - cbn [process_all] in H.
    apply fsm_bind_inv in H as (r & fs1 & Hr & H).
    apply fsm_bind_inv in H as (rs' & fs2 & Hrs & H).
    injection H as <- <-.
    cbn [main_loop]. rewrite (io_bind_run_ret _ _ _ _ _ Hr).
    destruct r as [[out_path ok] msg]. rewrite io_bind_print.
    rewrite (IH _ _ _ _ Hrs). rewrite successes_cons. simpl.
    do 3 f_equal. destruct ok; lia.
Qed.


(** What [main] computes before it looks at the targets. *)
Definition input_of (args : Args) : Path :=
  expanduser (path_of_string (arg_path args)).

Definition out_dir_of (args : Args) (fs : FS) : Path :=
  path_join (match fs !! input_of args with
             | Some NDir => input_of args
             | _ => path_parent (input_of args)
             end) (arg_out_subdir args).

Lemma main_not_found (args : Args) (fs : FS) :
  fs !! input_of args = None →
  main args fs = (Ret (), fs, [not_found_line (input_of args)]).
Proof.
  intros H. unfold main. fold (input_of args).
  erewrite io_bind_run_ret; [| reflexivity].
  rewrite bool_decide_eq_false_2 by (rewrite H; by intros [? ?]).
  reflexivity.
Qed.

(** [main] up to the targets. *)
Lemma main_found (args : Args) (fs : FS) (targets : list Path) :
  is_Some (fs !! input_of args) →
  gather_targets (input_of args) fs = (Ret targets, fs) →
  ∃ color, parse_color (arg_color args) = Ret color ∧
  main args fs =
  match targets with
  | [] => print no_images_line fs
  | _ =>
    (_ ← print (found_line (length targets) (out_dir_of args fs));
     success ← main_loop targets (arg_font_size args) color
                         (arg_position args) (out_dir_of args fs) 0;
     print (done_line success (length targets))) fs
  end.
Proof.
  intros Hex Hg.
  destruct (parse_color_rgba (arg_color args)) as (r & g & b & a & Hc).
  exists [r; g; b; a]. split; [done |].
  unfold main. fold (input_of args).
  erewrite io_bind_run_ret; [| reflexivity].
  rewrite bool_decide_eq_true_2 by done. cbn [negb].
  erewrite io_bind_run_ret; [| reflexivity].
  erewrite io_bind_run_ret; [| unfold lift; by rewrite Hc].
  erewrite io_bind_run_ret; [| exact Hg].
  unfold out_dir_of.
  destruct targets; destruct (fs !! input_of args) as [[| |] |]; reflexivity.
Qed.

Lemma main_no_targets (args : Args) (fs : FS) :
  is_Some (fs !! input_of args) →
  gather_targets (input_of args) fs = (Ret [], fs) →
  main args fs = (Ret (), fs, [no_images_line]).
Proof.
  intros Hex Hg. destruct (main_found args fs [] Hex Hg) as (c & _ & ->).
  reflexivity.
Qed.

Lemma main_batch (args : Args) (fs : FS) (targets : list Path) color rs fs' :
  is_Some (fs !! input_of args) →
  gather_targets (input_of args) fs = (Ret targets, fs) →
  targets ≠ [] →
  parse_color (arg_color args) = Ret color →
  process_all targets (arg_font_size args) color (arg_position args)
    (out_dir_of args fs) fs = (Ret rs, fs') →
  main args fs
  = (Ret (), fs',
     (found_line (length targets) (out_dir_of args fs)
      :: file_lines targets rs
      ++ [done_line (successes rs) (length targets)])%list).
Proof.
  intros Hex Hg Hne Hc Hrs.
  destruct (main_found args fs targets Hex Hg) as (c & Hc' & ->).
  assert (c = color) as -> by congruence.
  destruct targets as [| t rest]; [done |].
  rewrite io_bind_print, io_bind_run.
  rewrite (main_loop_spec _ _ _ _ _ 0 _ _ _ Hrs). cbn.
  by rewrite Z.add_0_l.
Qed.

End BatchProperties.

(** ** Without a font *)

Section FontProperties.
Context `{DT : DateTimeLib} `{IM : ImagingLib} `{PF : !Platform}.

(** No font can be obtained: the built-in font does not load, and every
    candidate file is missing or does not open. *)
Definition no_font (fs : FS) (font_size : Z) : Prop :=
  (∃ e, load_default = Raise e)
  ∧ ∀ p, p ∈ font_candidates →
      fs !! path_of_string p = None ∨ ∃ e, truetype p font_size = Raise e.

Lemma try_candidates_none (cands : list string) (font_size : Z) (fs : FS) :
  (∀ p, p ∈ cands →
     fs !! path_of_string p = None ∨ ∃ e, truetype p font_size = Raise e) →
  try_candidates cands font_size fs = (Ret None, fs).
Proof.
  induction cands as [| p rest IH]; intros H; [reflexivity |].
  cbn [try_candidates]. rewrite fsm_bind_run.
  assert (Hp : p ∈ p :: rest) by (apply elem_of_cons; by left).
  match goal with |- context [try_fs ?m ?h fs] =>
    assert (Ht : try_fs m h fs = (Ret None, fs)) end.
  { unfold try_fs. rewrite fsm_bind_run. unfold os_path_exists, path_exists.
    destruct (H p Hp) as [Hn | [e He]].
    - rewrite Hn. rewrite bool_decide_eq_false_2 by (by intros [? ?]).
      reflexivity.
    - destruct (bool_decide _); [| reflexivity].
      rewrite fsm_bind_run. unfold lift. by rewrite He. }
  rewrite Ht. apply IH. intros q Hq. apply H. apply elem_of_cons. by right.
Qed.

Lemma ensure_font_no_font (fs : FS) (font_size : Z) :
  no_font fs font_size →
  ensure_font font_size fs = (Raise (RuntimeError no_font_message), fs).
Proof.
  intros [[e He] Hc]. unfold ensure_font.
  rewrite fsm_bind_run, (try_candidates_none _ _ _ Hc).
  unfold try_fs, lift. by rewrite He.
Qed.

(** The only exception that [ensure_font] lets out is its own. *)
Lemma ensure_font_raises (font_size : Z) (fs : FS) (e : exn) (fs' : FS) :
  ensure_font font_size fs = (Raise e, fs') →
  e = RuntimeError no_font_message.
Proof.
  unfold ensure_font. rewrite fsm_bind_run.
  destruct (try_candidates_total font_candidates font_size fs) as [[font |] ->].
  - discriminate.
  - unfold try_fs, lift. destruct load_default; [discriminate |].
    by intros [= <- _].
Qed.

Lemma draw_watermark_no_font (image : Image) (text : string) (font_size : Z)
    (color : list Z) (position : string) (fs : FS) :
  no_font fs font_size →
  ∃ e, draw_watermark image text font_size color position fs = (Raise e, fs)
    ∧ (∀ base layer,
         (if negb (im_mode image =? "RGBA") then image_convert image "RGBA"
          else image_copy image) = Ret base →
         image_new "RGBA" (im_size base) [255; 255; 255; 0] = Ret layer →
         e = RuntimeError no_font_message).
Proof.
  intros Hn. unfold draw_watermark. rewrite fsm_bind_run. unfold lift at 1.
  destruct (if negb _ then _ else _) as [base | e1].
  - rewrite fsm_bind_run. unfold lift at 1.
    destruct (image_new _ _ _) as [layer | e2] eqn:E2.
    + rewrite fsm_bind_run, (ensure_font_no_font _ _ Hn). eauto.
    + exists e2. split; [done |]. intros b l [= <-] Hl. congruence.
  - exists e1. split; [done |]. intros b l [=].
Qed.

Lemma process_image_no_font (path : Path) (font_size : Z) (color : list Z)
    (position : string) (out_dir : Path) (fs : FS) :
  no_font fs font_size →
  ∃ e, process_image path font_size color position out_dir fs
       = (Ret (path, false, "Error: " ++ exn_str e), fs).
Proof.
  intros Hn.
  assert (∃ e, process_image_body path font_size color position out_dir fs
               = (Raise e, fs)) as [e He].
  { unfold process_image_body. rewrite fsm_bind_run.
    pose proof (readonly_resolve_date path fs) as Hr.
    destruct (resolve_date path fs) as [[date | e] fs1]; simpl in Hr; subst;
      [| eauto].
    rewrite fsm_bind_run.
    pose proof (readonly_Image_open path fs) as Ho.
    destruct (Image_open path fs) as [[img | e] fs1]; simpl in Ho; subst;
      [| eauto].
    rewrite fsm_bind_run.
    destruct (draw_watermark_no_font img date font_size color position fs Hn)
      as (e & -> & _). eauto. }
  exists e. by apply process_image_failure.
Qed.

Lemma process_all_no_font (targets : list Path) (font_size : Z)
    (color : list Z) (position : string) (out_dir : Path) (fs : FS) :
  no_font fs font_size →
  ∃ rs, process_all targets font_size color position out_dir fs = (Ret rs, fs)
    ∧ Forall2 (λ t (r : ProcessResult),
                 ∃ e, r = (t, false, "Error: " ++ exn_str e)) targets rs
    ∧ successes rs = 0.
Proof.
  intros Hn. induction targets as [| t rest (rs & Hrs & Hall & Hs)].
  - exists []. split; [done |]. split; [constructor | done].
  - destruct (process_image_no_font t font_size color position out_dir fs Hn)
      as [e He].
    exists ((t, false, "Error: " ++ exn_str e) :: rs). split; [| split].
    + cbn [process_all]. rewrite fsm_bind_run, He, fsm_bind_run, Hrs. done.
    + constructor; eauto.
    + rewrite successes_cons, Hs. reflexivity.
Qed.

End FontProperties.



(** C9: when the path does not exist, or exists and has no target, [main]
    prints its one message and returns, and the file system is what it was:
    no directory has been made.  Enumerating only reads.  docs/, which holds
    text files only, has no targets, and after the run there is still no
    docs/_watermark. *)
Theorem C9_no_targets_no_output_dir :
  (∀ (DT : DateTimeLib) (IM : ImagingLib) (PF : Platform)
     (args : Args) (fs : FS),
     (fs !! input_of args = None →
        main args fs = (Ret (), fs, [not_found_line (input_of args)]))
     ∧ (is_Some (fs !! input_of args) →
        gather_targets (input_of args) fs = (Ret [], fs) →
        main args fs = (Ret (), fs, [no_images_line]))
     ∧ (∀ p r fs', gather_targets p fs = (r, fs') → fs' = fs))
  ∧ (∀ piexif fonts,
       @gather_targets ref_datetime (ref_imaging piexif fonts) ["docs"]
         (Demo.docs piexif fonts) = (Ret [], Demo.docs piexif fonts)
       ∧ @main ref_datetime (ref_imaging piexif fonts) ref_platform
           (Demo.args "docs") (Demo.docs piexif fonts)
         = (Ret (), Demo.docs piexif fonts, [no_images_line])
       ∧ Demo.docs piexif fonts !! ["docs"; "_watermark"] = None)
  ∧ no_images_line
    = "没有发现支持的图片文件。支持扩展名： .bmp,.jpeg,.jpg,.png,.tif,.tiff,.webp".
Proof.
  split; [| split].
  - intros DT IM PF args fs. split; [apply main_not_found |].
    split; [apply main_no_targets |].
    intros p r fs' H. eapply readonly_run; [apply readonly_gather_targets | done].
  - intros [] []; repeat split; reflexivity.
  - vm_compute. reflexivity.
Qed.

(** docs/ through the general statement. *)
Lemma C9_no_targets_no_output_dir_witness :
  @main ref_datetime (ref_imaging true true) ref_platform
    (Demo.args "docs") (Demo.docs true true)
  = (Ret (), Demo.docs true true, [no_images_line]).
Proof.
  destruct C9_no_targets_no_output_dir as (H & _).
  destruct (H ref_datetime (ref_imaging true true) ref_platform
              (Demo.args "docs") (Demo.docs true true)) as (_ & H2 & _).
  apply H2; [by eexists | reflexivity].
Defined.

(** C1, as stated, fails: with no font to be had, [ensure_font] raises, and
    the run over the demo folder does not abort.  It returns normally, the
    font error is the message of a failed result for each image that could
    be opened, and the summary line is printed. *)
Lemma C1_counterexample :
  @ensure_font ref_datetime (ref_imaging true false) 10 (Demo.photos true false)
  = (Raise (RuntimeError no_font_message), Demo.photos true false)
  ∧ @main ref_datetime (ref_imaging true false) ref_platform
      (Demo.args "photos") (Demo.photos true false)
    = (Ret (), Demo.photos true false,
       ["Found 3 images. Output dir: photos/_watermark";
        "a.jpg -> Error: 无法加载字体，请安装字体或指定字体路径。";
        "b.jpg -> Error: cannot identify image file";
        "c.png -> Error: 无法加载字体，请安装字体或指定字体路径。";
        "Done. 0/3 processed."]).
Proof. split; reflexivity. Qed.

(** C1, amended: if no font can be obtained (the built-in font does not load
    and every candidate file is missing or does not open), [ensure_font]
    raises RuntimeError with its message, and [process_image] catches it as
    it catches every exception: each file gets a failed result with its own
    path, nothing is written, and the batch runs to its end with no
    success.  The run does not abort. *)
Theorem C1_font_failure_per_file :
  ∀ (DT : DateTimeLib) (IM : ImagingLib) (PF : Platform)
    (fs : FS) (font_size : Z),
    no_font fs font_size →
    ensure_font font_size fs = (Raise (RuntimeError no_font_message), fs)
    ∧ (∀ image text color position base layer,
         (if negb (im_mode image =? "RGBA") then image_convert image "RGBA"
          else image_copy image) = Ret base →
         image_new "RGBA" (im_size base) [255; 255; 255; 0] = Ret layer →
         draw_watermark image text font_size color position fs
         = (Raise (RuntimeError no_font_message), fs))
    ∧ (∀ path color position out_dir,
         ∃ e, process_image path font_size color position out_dir fs
              = (Ret (path, false, "Error: " ++ exn_str e), fs))
    ∧ (∀ (targets : list Path) color position out_dir success,
         ∃ rs,
           Forall2 (λ t (r : ProcessResult),
                      ∃ e, r = (t, false, "Error: " ++ exn_str e)) targets rs
           ∧ main_loop targets font_size color position out_dir success fs
             = (Ret success, fs, file_lines targets rs)).
Proof.
  intros DT IM PF fs font_size Hn. split; [by apply ensure_font_no_font |].
  split; [| split].
  - intros image text color position base layer Hb Hl.
    destruct (draw_watermark_no_font image text font_size color position fs Hn)
      as (e & He & Hmsg).
    by rewrite He, (Hmsg base layer Hb Hl).
  - intros. by apply process_image_no_font.
  - intros targets color position out_dir success.
    destruct (process_all_no_font targets font_size color position out_dir
                fs Hn) as (rs & Hrs & Hall & Hs).
    exists rs. split; [done |].
    rewrite (main_loop_spec _ _ _ _ _ _ _ _ _ Hrs), Hs.
    by rewrite Z.add_0_r.
Qed.

(** The demo folder on a machine without fonts: the failure of a.jpg is the
    font error, recorded for a.jpg. *)
Lemma C1_font_failure_per_file_witness :
  ∃ e, @process_image ref_datetime (ref_imaging true false) ref_platform
         ["photos"; "a.jpg"] 10 [255; 255; 255; 255] "bottom-right"
         ["photos"; "_watermark"] (Demo.photos true false)
       = (Ret (["photos"; "a.jpg"], false, "Error: " ++ exn_str e),
          Demo.photos true false).
Proof.
  destruct (C1_font_failure_per_file ref_datetime (ref_imaging true false)
              ref_platform (Demo.photos true false) 10) as (_ & _ & H & _).
  - split; [by eexists |].
    intros p Hp. left.
    repeat (apply elem_of_cons in Hp as [-> | Hp]; [reflexivity |]).
    by apply elem_of_nil in Hp.
  - apply H.
Defined.

(** * Further properties of the module *)

(** ** What [process_image] does to the file system *)

Section EffectProperties.
Context `{DT : DateTimeLib} `{IM : ImagingLib} `{PF : !Platform}.

(** [mkdir] fills gaps with directories and changes nothing that exists. *)
Lemma mkdir_chain_effect (ps : list Path) : ∀ (fs : FS) r fs',
  mkdir_chain ps fs = (r, fs') →
  (∀ q n, fs !! q = Some n → fs' !! q = Some n)
  ∧ (∀ q, fs !! q = None →
       fs' !! q = None ∨ (fs' !! q = Some NDir ∧ q ∈ ps))
  ∧ (r = Ret () → ∀ q, q ∈ ps → fs' !! q = Some NDir).
Proof.
  induction ps as [| p rest IH]; intros fs r fs' H.
  - injection H as <- <-. split; [done |]. split; [by left |].
    intros _ q Hq. by apply elem_of_nil in Hq.
  - cbn [mkdir_chain] in H. destruct (fs !! p) as [[mt d | |] |] eqn:Ep.
    + injection H as <- <-. split; [done |]. split; [by left | done].
    + destruct (IH _ _ _ H) as (H1 & H2 & H3). split; [done |]. split.
      * intros q Hq. destruct (H2 q Hq) as [? | [? ?]]; [by left |].
        right. split; [done |]. apply elem_of_cons. by right.
      * intros Hr q Hq. apply elem_of_cons in Hq as [-> | Hq]; [| by apply H3].
        by apply H1.
    + injection H as <- <-. split; [done |]. split; [by left | done].
    + destruct (IH _ _ _ H) as (H1 & H2 & H3).
      assert (Hp : fs' !! p = Some NDir) by (apply H1, lookup_insert_eq).
      split; [| split].
      * intros q n Hq. apply H1. rewrite lookup_insert_ne; [done |].
        intros ->. congruence.
      * intros q Hq. destruct (decide (q = p)) as [-> | Hne].
        -- right. split; [done |]. apply elem_of_cons. by left.
        -- destruct (H2 q) as [? | [? ?]]; [by rewrite lookup_insert_ne | by left |].
           right. split; [done |]. apply elem_of_cons. by right.
      * intros Hr q Hq. apply elem_of_cons in Hq as [-> | Hq]; [done |].
        by apply H3.
Qed.

Lemma write_file_effect (p : Path) (data : filedata) (fs : FS) r fs' :
  write_file p data fs = (r, fs') →
  (r = Ret () ∧ fs' = <[p := NFile time_now data]> fs
   ∧ fs !! p ≠ Some NDir)
  ∨ ((∃ e, r = Raise e) ∧ fs' = fs).
Proof.
  unfold write_file.
  destruct (fs !! path_parent p) as [[| |] |], (fs !! p) as [[| |] |] eqn:Ep;
    intros [= <- <-]; (by left) || (right; eauto).
Qed.

(** The three ways a call of [process_image] can go: it fails before it
    makes the directory, it fails at or after making it, or it saves. *)
Lemma process_image_stages (path : Path) (font_size : Z) (color : list Z)
    (position : string) (out_dir : Path) (fs : FS) r fs' :
  process_image path font_size color position out_dir fs = (Ret r, fs') →
  let out_path := path_join out_dir (path_name path) in
  (r.1.2 = false ∧ r.1.1 = path ∧ fs' = fs)
  ∨ (r.1.2 = false ∧ r.1.1 = path
     ∧ ∃ res, mkdir_parents out_dir fs = (res, fs'))
  ∨ (r = (out_path, true, "Saved -> " ++ path_str out_path)
     ∧ ∃ fs1 data,
         mkdir_parents out_dir fs = (Ret (), fs1)
         ∧ fs1 !! out_path ≠ Some NDir
         ∧ fs' = <[out_path := NFile time_now data]> fs1).
Proof.
  intros H out_path. unfold process_image, try_fs in H.
  unfold process_image_body in H. rewrite fsm_bind_run in H.
  pose proof (readonly_resolve_date path fs) as Hr.
  destruct (resolve_date path fs) as [[date | e] fs0]; simpl in Hr; subst fs0;
    [| injection H as <- <-; by left].
  rewrite fsm_bind_run in H.
  pose proof (readonly_Image_open path fs) as Ho.
  destruct (Image_open path fs) as [[img | e] fs0]; simpl in Ho; subst fs0;
    [| injection H as <- <-; by left].
  rewrite fsm_bind_run in H.
  pose proof (readonly_draw_watermark img date font_size color position fs) as Hd.
  destruct (draw_watermark img date font_size color position fs)
    as [[out_img | e] fs0]; simpl in Hd; subst fs0;
    [| injection H as <- <-; by left].
  rewrite fsm_bind_run in H.
  destruct (mkdir_parents out_dir fs) as [[[] | e] fs1] eqn:Em;
    [| injection H as <- <-; right; left; eauto].
  rewrite fsm_bind_run in H. unfold Image_save in H.
  rewrite fsm_bind_run in H. unfold lift at 1 in H.
  fold out_path in H.
  destruct (image_encode out_img out_path) as [data | e];
    [| injection H as <- <-; right; left; eauto].
  destruct (write_file out_path data fs1) as [w fs2] eqn:Ew.
  apply write_file_effect in Ew as [(-> & -> & Hnd) | ([e ->] & ->)].
  - injection H as <- <-. right. right. split; [done |]. eauto.
  - injection H as <- <-. right. left. eauto.
Qed.

(** Nothing that exists is removed or changed, except that the output path
    can be overwritten by the saved copy. *)
Lemma process_image_preserves (path : Path) (font_size : Z) (color : list Z)
    (position : string) (out_dir : Path) (fs : FS) r fs' q n :
  process_image path font_size color position out_dir fs = (Ret r, fs') →
  fs !! q = Some n →
  fs' !! q = Some n
  ∨ (q = path_join out_dir (path_name path) ∧ r.1.2 = true
     ∧ ∃ data, fs' !! q = Some (NFile time_now data)).
Proof.
  intros H Hq.
  apply process_image_stages in H as [(_ & _ & ->) | [(_ & _ & res & Hm) | H]].
  - by left.
  - left. by apply (mkdir_chain_effect _ _ _ _ Hm).
  - destruct H as (-> & fs1 & data & Hm & _ & ->).
    destruct (decide (q = path_join out_dir (path_name path))) as [-> | Hne].
    + right. split; [done |]. split; [done |]. exists data.
      apply lookup_insert_eq.
    + left. rewrite lookup_insert_ne by done.
      by apply (mkdir_chain_effect _ _ _ _ Hm).
Qed.


(** After a success the copy is in place, under the name of the source, and
    the output directory and the directories above it are there. *)
Lemma process_image_saved (path : Path) (font_size : Z) (color : list Z)
    (position : string) (out_dir : Path) (fs : FS) p msg fs' :
  process_image path font_size color position out_dir fs
  = (Ret (p, true, msg), fs') →
  p = path_join out_dir (path_name path)
  ∧ msg = "Saved -> " ++ path_str p
  ∧ (∃ data, fs' !! p = Some (NFile time_now data))
  ∧ (∀ q, q ∈ ancestors out_dir → fs' !! q = Some NDir).
Proof.
  intros H.
  apply process_image_stages in H as [(Hf & _) | [(Hf & _) | H]];
    [discriminate | discriminate |].
  destruct H as ([= -> ->] & fs1 & data & Hm & Hnd & ->).
  split; [done |]. split; [done |]. split.
  - exists data. apply lookup_insert_eq.
  - intros q Hq.
    destruct (mkdir_chain_effect _ _ _ _ Hm) as (_ & _ & H3).
    specialize (H3 eq_refl q Hq).
    rewrite lookup_insert_ne; [done |]. intros <-. congruence.
Qed.

(** A source that cannot be read leaves no trace: no date, a failed result,
    and the file system as it was. *)
Lemma process_image_unreadable (path : Path) (font_size : Z) (color : list Z)
    (position : string) (out_dir : Path) (fs : FS) :
  (∃ e, read_file path fs = (Raise e, fs)) →
  get_exif_date path fs = (Ret None, fs)
  ∧ ∃ e, process_image path font_size color position out_dir fs
         = (Ret (path, false, "Error: " ++ exn_str e), fs).
Proof.
  intros [e0 He0].
  assert (Hg : get_exif_date path fs = (Ret None, fs)).
  { destruct (get_exif_date_total path fs) as [r Hr].
    unfold get_exif_date, try_fs in *.
    assert (Hb : ∃ e, get_exif_date_body path fs = (Raise e, fs)).
    { unfold get_exif_date_body. destruct _HAS_PIEXIF.
      - rewrite fsm_bind_run, He0. eauto.
      - unfold Image_open. rewrite !fsm_bind_run, He0. eauto. }
    destruct Hb as [e ->]. reflexivity. }
  split; [done |].
  assert (∃ e, process_image_body path font_size color position out_dir fs
               = (Raise e, fs)) as [e He].
  { unfold process_image_body. rewrite fsm_bind_run.
    pose proof (readonly_resolve_date path fs) as Hr.
    destruct (resolve_date path fs) as [[date | e] fs1]; simpl in Hr; subst;
      [| eauto].
    rewrite fsm_bind_run. unfold Image_open. rewrite fsm_bind_run, He0. eauto. }
  exists e. by apply process_image_failure.
Qed.

(** Every path that the batch reports as saved holds a file when the batch
    ends. *)
Lemma process_all_saved (targets : list Path) (font_size : Z) (color : list Z)
    (position : string) (out_dir : Path) : ∀ (fs : FS) rs fs',
  process_all targets font_size color position out_dir fs = (Ret rs, fs') →
  ∀ p msg, (p, true, msg) ∈ rs →
    ∃ mtime data, fs' !! p = Some (NFile mtime data).
Proof.
  induction targets as [| t rest IH]; intros fs rs fs' H p msg Hin.
  - injection H as <- <-. by apply elem_of_nil in Hin.
  - cbn [process_all] in H.
    apply fsm_bind_inv in H as (r & fs1 & Hr & H).
    apply fsm_bind_inv in H as (rs' & fs2 & Hrs & H).
    injection H as <- <-.
    apply elem_of_cons in Hin as [<- | Hin]; [| by eapply IH].
    apply process_image_saved in Hr as (_ & _ & [data Hd] & _).
    clear IH. revert fs1 rs' Hrs data Hd.
    generalize (@time_now DT PF).
    induction rest as [| t' rest' IH']; intros mt fs1 rs' Hrs data Hd.
    + injection Hrs as <- <-. eauto.
    + cbn [process_all] in Hrs.
      apply fsm_bind_inv in Hrs as (r' & fs3 & Hr' & Hrs).
      apply fsm_bind_inv in Hrs as (rs'' & fs4 & Hrs' & Hrs).
      injection Hrs as <- <-.
      destruct (process_image_preserves _ _ _ _ _ _ _ _ _ _ Hr' Hd)
        as [Hk | (_ & _ & data' & Hk)]; by eapply IH'.
Qed.

End EffectProperties.

(** ** Placement names and fitting text *)

Lemma place_text_position_lower iw ih tw th position m :
  place_text_position (iw, ih) (tw, th) position m
  = place_text_position (iw, ih) (tw, th) (lower position) m.
Proof. by rewrite !place_text_position_anchor, lower_idemp. Qed.

Lemma anchor_of_fits pos iw ih tw th m :
  (0 ≤ m)%Z → (tw + 2 * m ≤ iw)%Z → (th + 2 * m ≤ ih)%Z →
  (m ≤ (anchor_of pos iw ih tw th m).1 ≤ iw - tw - m)%Z
  ∧ (m ≤ (anchor_of pos iw ih tw th m).2 ≤ ih - th - m)%Z.
Proof.
  intros Hm Hw Hh. unfold anchor_of.
  pose proof (Z.div_mod (iw - tw) 2 ltac:(lia)).
  pose proof (Z.mod_pos_bound (iw - tw) 2 ltac:(lia)).
  pose proof (Z.div_mod (ih - th) 2 ltac:(lia)).
  pose proof (Z.mod_pos_bound (ih - th) 2 ltac:(lia)).
  repeat case_bool_decide; simpl; lia.
Qed.

(** ** The font provider *)

Section FontOrder.
Context `{DT : DateTimeLib} `{IM : ImagingLib}.

Lemma try_candidates_first (before after : list string) (p : string)
    (font_size : Z) (fs : FS) font :
  (∀ q, q ∈ before →
     fs !! path_of_string q = None ∨ ∃ e, truetype q font_size = Raise e) →
  is_Some (fs !! path_of_string p) →
  truetype p font_size = Ret font →
  try_candidates (before ++ p :: after) font_size fs = (Ret (Some font), fs).
Proof.
  intros Hb Hp Ht. induction before as [| q rest IH].
  - cbn [app try_candidates]. rewrite fsm_bind_run.
    unfold try_fs. rewrite fsm_bind_run. unfold os_path_exists, path_exists.
    rewrite bool_decide_eq_true_2 by done.
    rewrite fsm_bind_run. unfold lift. rewrite Ht. reflexivity.
  - cbn [app try_candidates]. rewrite fsm_bind_run.
    assert (Hq : q ∈ q :: rest) by (apply elem_of_cons; by left).
    match goal with |- context [try_fs ?m ?h fs] =>
      assert (Hn : try_fs m h fs = (Ret None, fs)) end.
    { unfold try_fs. rewrite fsm_bind_run. unfold os_path_exists, path_exists.
      destruct (Hb q Hq) as [Hn | [e He]].
      - rewrite Hn. rewrite bool_decide_eq_false_2 by (by intros [? ?]).
        reflexivity.
      - destruct (bool_decide _); [| reflexivity].
        rewrite fsm_bind_run. unfold lift. by rewrite He. }
    rewrite Hn. apply IH. intros q' Hq'. apply Hb. apply elem_of_cons. by right.
Qed.

Lemma try_candidates_none_inv (cands : list string) (font_size : Z) (fs : FS) :
  try_candidates cands font_size fs = (Ret None, fs) →
  ∀ p, p ∈ cands →
    fs !! path_of_string p = None ∨ ∃ e, truetype p font_size = Raise e.
Proof.
  induction cands as [| q rest IH]; intros H p Hp;
    [by apply elem_of_nil in Hp |].
  cbn [try_candidates] in H. rewrite fsm_bind_run in H.
  unfold try_fs at 1 in H. rewrite fsm_bind_run in H.
  unfold os_path_exists, path_exists in H.
  destruct (fs !! path_of_string q) as [n |] eqn:Eq.
  - rewrite bool_decide_eq_true_2 in H by eauto.
    rewrite fsm_bind_run in H. unfold lift in H.
    destruct (truetype q font_size) as [font | e] eqn:Et; [discriminate |].
    apply elem_of_cons in Hp as [-> | Hp]; [right; eauto | by apply IH].
  - rewrite bool_decide_eq_false_2 in H by (by intros [? ?]).
    apply elem_of_cons in Hp as [-> | Hp]; [by left | by apply IH].
Qed.

End FontOrder.

(** ** More folders *)

Module Demo2.

(** A machine whose only font file is the second candidate. *)
Definition with_font (fonts : bool)
    : gmap Path (@node ref_datetime (ref_imaging true fonts)) :=
  <[ path_of_string "/usr/share/fonts/truetype/liberation/LiberationSans-Regular.ttf"
     := Demo.file true fonts 0 Reference.OtherFile ]> (Demo.photos true fonts).

(** DateTimeOriginal holds no date; DateTime does. *)
Definition exif_bad_original : gmap Z TagValue :=
  {[ DateTimeOriginal := VStr "yesterday";
     DateTime := VStr "2024:01:02 03:04:05" ]}.


End Demo2.

(** X1: placement names are matched without regard to case, and the short
    names tl, tr, bl, br and c stand for top-left, top-right, bottom-left,
    bottom-right and center. *)
Theorem X1_placement_names (iw ih tw th m : Z) (position : string) :
  place_text_position (iw, ih) (tw, th) position m
  = place_text_position (iw, ih) (tw, th) (lower position) m
  ∧ place_text_position (iw, ih) (tw, th) "tl" m
    = place_text_position (iw, ih) (tw, th) "top-left" m
  ∧ place_text_position (iw, ih) (tw, th) "tr" m
    = place_text_position (iw, ih) (tw, th) "top-right" m
  ∧ place_text_position (iw, ih) (tw, th) "bl" m
    = place_text_position (iw, ih) (tw, th) "bottom-left" m
  ∧ place_text_position (iw, ih) (tw, th) "br" m
    = place_text_position (iw, ih) (tw, th) "bottom-right" m
  ∧ place_text_position (iw, ih) (tw, th) "c" m
    = place_text_position (iw, ih) (tw, th) "center" m.
Proof.
  split; [apply place_text_position_lower |]. repeat split; reflexivity.
Qed.

(** X2: if the margin is not negative and the text with a margin on both
    sides fits the image in width and height, then for every placement name
    the text box lies inside the image with at least the margin to every
    edge. *)
Theorem X2_box_inside_when_text_fits (iw ih tw th m : Z) (position : string) :
  (0 ≤ m)%Z → (tw + 2 * m ≤ iw)%Z → (th + 2 * m ≤ ih)%Z →
  (m ≤ (place_text_position (iw, ih) (tw, th) position m).1)%Z
  ∧ ((place_text_position (iw, ih) (tw, th) position m).1 + tw ≤ iw - m)%Z
  ∧ (m ≤ (place_text_position (iw, ih) (tw, th) position m).2)%Z
  ∧ ((place_text_position (iw, ih) (tw, th) position m).2 + th ≤ ih - m)%Z.
Proof.
  intros Hm Hw Hh. rewrite place_text_position_anchor.
  pose proof (anchor_of_fits (lower position) iw ih tw th m Hm Hw Hh). lia.
Qed.

(** A 50 by 20 text on a 200 by 100 image, centered, margin 10. *)
Lemma X2_box_inside_when_text_fits_witness :
  (10 ≤ (place_text_position (200, 100) (50, 20) "Center" 10).1)%Z
  ∧ ((place_text_position (200, 100) (50, 20) "Center" 10).1 + 50 ≤ 200 - 10)%Z
  ∧ (10 ≤ (place_text_position (200, 100) (50, 20) "Center" 10).2)%Z
  ∧ ((place_text_position (200, 100) (50, 20) "Center" 10).2 + 20 ≤ 100 - 10)%Z.
Proof. apply (X2_box_inside_when_text_fits 200 100 50 20 10 "Center"); lia. Defined.

(** X3: [ensure_font] takes the candidates in the order of its list: the
    first one that exists and opens is the font, whatever comes after it and
    whether or not the built-in font would load; a candidate that is missing
    or does not open is passed over. *)
Theorem X3_ensure_font_first_candidate :
  ∀ (DT : DateTimeLib) (IM : ImagingLib) (fs : FS) (font_size : Z)
    (before after : list string) (p : string) font,
    font_candidates = (before ++ p :: after)%list →
    (∀ q, q ∈ before →
       fs !! path_of_string q = None ∨ ∃ e, truetype q font_size = Raise e) →
    is_Some (fs !! path_of_string p) →
    truetype p font_size = Ret font →
    ensure_font font_size fs = (Ret font, fs).
Proof.
  intros DT IM fs font_size before after p font Hc Hb Hp Ht.
  unfold ensure_font. rewrite fsm_bind_run, Hc.
  by rewrite (try_candidates_first before after p font_size fs font Hb Hp Ht).
Qed.

(** Only LiberationSans is installed: it is the font, at the size asked
    for. *)
Lemma X3_ensure_font_first_candidate_witness :
  @ensure_font ref_datetime (ref_imaging true true) 10 (Demo2.with_font true)
  = (Ret {| Reference.f_name :=
              "/usr/share/fonts/truetype/liberation/LiberationSans-Regular.ttf";
            Reference.f_size := 10 |}, Demo2.with_font true).
Proof.
  apply (X3_ensure_font_first_candidate ref_datetime (ref_imaging true true)
           (Demo2.with_font true) 10
           ["/usr/share/fonts/truetype/dejavu/DejaVuSans.ttf"]
           ["/Library/Fonts/Arial.ttf";
            "/System/Library/Fonts/Supplemental/Arial.ttf"]
           "/usr/share/fonts/truetype/liberation/LiberationSans-Regular.ttf").
  - reflexivity.
  - intros q Hq. apply list_elem_of_singleton in Hq as ->. left. reflexivity.
  - by eexists.
  - reflexivity.
Defined.

(** X4: [ensure_font] raises exactly when no font can be obtained (the
    built-in font does not load and every candidate is missing or does not
    open); what it raises is always its RuntimeError, never the error of the
    font library, and it leaves the file system alone. *)
Theorem X4_ensure_font_raises_iff_no_font :
  ∀ (DT : DateTimeLib) (IM : ImagingLib) (fs : FS) (font_size : Z),
    ((∃ e fs', ensure_font font_size fs = (Raise e, fs'))
     ↔ no_font fs font_size)
    ∧ (∀ e fs', ensure_font font_size fs = (Raise e, fs') →
         e = RuntimeError no_font_message ∧ fs' = fs).
Proof.
  intros DT IM fs font_size. split; [split |].
  - intros (e & fs' & H). unfold ensure_font in H. rewrite fsm_bind_run in H.
    destruct (try_candidates_total font_candidates font_size fs)
      as [[font |] Hr]; rewrite Hr in H; [discriminate |].
    split.
    + unfold try_fs, lift in H. destruct load_default; [discriminate | eauto].
    + by apply try_candidates_none_inv.
  - intros Hn. exists (RuntimeError no_font_message), fs.
    by apply ensure_font_no_font.
  - intros e fs' H. split; [by eapply ensure_font_raises |].
    eapply readonly_run; [apply readonly_ensure_font | done].
Qed.

(** The demo folder on a machine without fonts: [ensure_font] raises, so no
    font can be obtained there. *)
Lemma X4_ensure_font_raises_iff_no_font_witness :
  @no_font ref_datetime (ref_imaging true false) (Demo.photos true false) 10.
Proof.
  destruct (X4_ensure_font_raises_iff_no_font ref_datetime
              (ref_imaging true false) (Demo.photos true false) 10)
    as ([H _] & _).
  apply H. eexists _, _. reflexivity.
Defined.

(** X5: a DateTimeOriginal value that is present but holds no date (text
    that neither format parses, or a value that is no text at all) ends the
    search with no date: the DateTime tag is not consulted, even when it
    holds a valid date.  With piexif this is so for every non-empty
    value. *)
Theorem X5_unparseable_original_hides_datetime :
  ∀ (DT : DateTimeLib),
    (∀ (exif : gmap Z TagValue) v,
       exif !! DateTimeOriginal = Some v → parse_date_value v = Ret None →
       date_from_pillow (Some exif) = Ret None)
    ∧ (∀ d v,
         exif_ifd d !! DateTimeOriginal = Some v → value_truthy v = true →
         parse_date_value v = Ret None →
         date_from_piexif d = Ret None)
    ∧ (∀ n, parse_date_value (VInt n) = Ret None)
    ∧ (∀ l, parse_date_value (VTuple l) = Ret None).
Proof.
  intros DT. repeat split.
  - intros exif v H Hv. by rewrite date_from_pillow_cases, H.
  - intros d v H Ht Hv. rewrite date_from_piexif_cases. cbv zeta.
    unfold exif_ifd in H. rewrite H. simpl. by rewrite Ht.
Qed.

(** 'yesterday' in DateTimeOriginal, a date in DateTime: no date. *)
Lemma X5_unparseable_original_hides_datetime_witness :
  @date_from_pillow ref_datetime (Some Demo2.exif_bad_original) = Ret None.
Proof.
  destruct (X5_unparseable_original_hides_datetime ref_datetime) as (H & _).
  apply (H Demo2.exif_bad_original (VStr "yesterday")); reflexivity.
Defined.



(** X7: resolving the date, loading the font, rendering and enumerating
    only read the file system: whatever they return or raise, the file
    system after them is the one before. *)
Theorem X7_reads_only :
  ∀ (DT : DateTimeLib) (IM : ImagingLib) (PF : Platform) (fs : FS),
    (∀ path, (get_exif_date path fs).2 = fs)
    ∧ (∀ path, (resolve_date path fs).2 = fs)
    ∧ (∀ font_size, (ensure_font font_size fs).2 = fs)
    ∧ (∀ image text font_size color position,
         (draw_watermark image text font_size color position fs).2 = fs)
    ∧ (∀ input_path, (gather_targets input_path fs).2 = fs).
Proof.
  intros DT IM PF fs. repeat split; intros.
  - apply readonly_get_exif_date.
  - apply readonly_resolve_date.
  - apply readonly_ensure_font.
  - apply readonly_draw_watermark.
  - apply readonly_gather_targets.
Qed.

Section DrawSteps.
Context `{DT : DateTimeLib} `{IM : ImagingLib}.

Lemma exc_bind_inv {A B} (m : Exc A) (f : A → Exc B) b :
  m ≫= f = Ret b → ∃ a, m = Ret a ∧ f a = Ret b.
Proof. destruct m as [a | e]; [eauto | discriminate]. Qed.

Lemma draw_outline_inv (layer : Image) x y text font l4 :
  draw_outline layer x y text font offsets = Ret l4 →
  ∃ l1 l2 l3,
    draw_text layer (x + -1, y + -1) text font outline_color = Ret l1
    ∧ draw_text l1 (x + -1, y + 1) text font outline_color = Ret l2
    ∧ draw_text l2 (x + 1, y + -1) text font outline_color = Ret l3
    ∧ draw_text l3 (x + 1, y + 1) text font outline_color = Ret l4.
Proof.
  unfold offsets. cbn [draw_outline]. intros H.
  apply exc_bind_inv in H as (l1 & E1 & H).
  apply exc_bind_inv in H as (l2 & E2 & H).
  apply exc_bind_inv in H as (l3 & E3 & H).
  apply exc_bind_inv in H as (l4' & E4 & H).
  injection H as <-. eauto 10.
Qed.

Lemma draw_watermark_steps (image : Image) (text : string) (font_size : Z)
    (color : list Z) (position : string) (fs : FS) out fs' :
  draw_watermark image text font_size color position fs = (Ret out, fs') →
  ∃ base l0 font w h l1 l2 l3 l4 l5 composited,
    (if negb (im_mode image =? "RGBA") then image_convert image "RGBA"
     else image_copy image) = Ret base
    ∧ image_new "RGBA" (im_size base) [255; 255; 255; 0] = Ret l0
    ∧ ensure_font font_size fs = (Ret font, fs)
    ∧ measure_text l0 text font = Ret (w, h)
    ∧ let x := (place_text_position (im_size base) (w, h) position 10).1 in
      let y := (place_text_position (im_size base) (w, h) position 10).2 in
      draw_text l0 (x + -1, y + -1) text font [0; 0; 0; 200] = Ret l1
      ∧ draw_text l1 (x + -1, y + 1) text font [0; 0; 0; 200] = Ret l2
      ∧ draw_text l2 (x + 1, y + -1) text font [0; 0; 0; 200] = Ret l3
      ∧ draw_text l3 (x + 1, y + 1) text font [0; 0; 0; 200] = Ret l4
      ∧ draw_text l4 (x, y) text font color = Ret l5
      ∧ alpha_composite base l5 = Ret composited
      ∧ (if negb (im_mode image =? "RGBA")
         then image_convert composited (im_mode image) = Ret out
         else out = composited).
Proof.
  unfold draw_watermark. intros E.
  apply fsm_bind_inv in E as (base & fs1 & Eb & E).
  apply lift_inv in Eb as [Eb ->].
  apply fsm_bind_inv in E as (l0 & fs2 & El0 & E).
  apply lift_inv in El0 as [El0 ->].
  apply fsm_bind_inv in E as (font & fs3 & Ef & E).
  pose proof (readonly_run _ _ _ _ (readonly_ensure_font font_size) Ef) as ->.
  apply fsm_bind_inv in E as ([w h] & fs4 & Em & E).
  apply lift_inv in Em as [Em ->].
  destruct (place_text_position (im_size base) (w, h) position 10)
    as [x y] eqn:Ep.
  apply fsm_bind_inv in E as (l4 & fs5 & Eo & E).
  apply lift_inv in Eo as [Eo ->].
  apply draw_outline_inv in Eo as (l1 & l2 & l3 & E1 & E2 & E3 & E4).
  apply fsm_bind_inv in E as (l5 & fs6 & E5 & E).
  apply lift_inv in E5 as [E5 ->].
  apply fsm_bind_inv in E as (composited & fs7 & Ec & E).
  apply lift_inv in Ec as [Ec ->].
  exists base, l0, font, w, h, l1, l2, l3, l4, l5, composited.
  cbv zeta. rewrite !Ep. cbn [fst snd]. unfold outline_color in *.
  repeat (split; [assumption |]).
  destruct (negb (im_mode image =? "RGBA")).
  - by apply lift_inv in E as [E _].
  - by injection E as <- _.
Qed.

End DrawSteps.

(** X8: a watermark that is rendered was rendered in this order: an RGBA
    working copy of the source; a transparent RGBA layer (255,255,255,0) of
    the copy's size; the font; the extent of the text; the anchor, with
    margin 10; the text in (0,0,0,200) at the four diagonal one-pixel
    offsets (-1,-1), (-1,1), (1,-1), (1,1); the text in the color asked for
    at the anchor itself, on top; the layer composited over the copy; and
    for a source that is not RGBA, the conversion back to its mode. *)
Theorem X8_draw_watermark_steps :
  ∀ (DT : DateTimeLib) (IM : ImagingLib) (image : Image) (text : string)
    (font_size : Z) (color : list Z) (position : string) (fs : FS) out fs',
    draw_watermark image text font_size color position fs = (Ret out, fs') →
    ∃ base l0 font w h l1 l2 l3 l4 l5 composited,
      (if negb (im_mode image =? "RGBA") then image_convert image "RGBA"
       else image_copy image) = Ret base
      ∧ image_new "RGBA" (im_size base) [255; 255; 255; 0] = Ret l0
      ∧ ensure_font font_size fs = (Ret font, fs)
      ∧ measure_text l0 text font = Ret (w, h)
      ∧ let x := (place_text_position (im_size base) (w, h) position 10).1 in
        let y := (place_text_position (im_size base) (w, h) position 10).2 in
        draw_text l0 (x + -1, y + -1) text font [0; 0; 0; 200] = Ret l1
        ∧ draw_text l1 (x + -1, y + 1) text font [0; 0; 0; 200] = Ret l2
        ∧ draw_text l2 (x + 1, y + -1) text font [0; 0; 0; 200] = Ret l3
        ∧ draw_text l3 (x + 1, y + 1) text font [0; 0; 0; 200] = Ret l4
        ∧ draw_text l4 (x, y) text font color = Ret l5
        ∧ alpha_composite base l5 = Ret composited
        ∧ (if negb (im_mode image =? "RGBA")
           then image_convert composited (im_mode image) = Ret out
           else out = composited).
Proof. intros DT IM. apply draw_watermark_steps. Qed.

(** The grayscale photo of the folder: composited in RGBA, converted back to
    L. *)
Lemma X8_draw_watermark_steps_witness :
  ∃ out base l5 composited,
    @draw_watermark ref_datetime (ref_imaging true true)
      (Demo.photo "L" None) "2000-02-29" 10 [255; 255; 255; 255]
      "bottom-right" (Demo.photos true true)
    = (Ret out, Demo.photos true true)
    ∧ @alpha_composite (ref_imaging true true) base l5 = Ret composited
    ∧ @image_convert (ref_imaging true true) composited "L" = Ret out.
Proof.
  assert (E : ∃ out,
            @draw_watermark ref_datetime (ref_imaging true true)
              (Demo.photo "L" None) "2000-02-29" 10 [255; 255; 255; 255]
              "bottom-right" (Demo.photos true true)
            = (Ret out, Demo.photos true true))
    by (eexists; reflexivity).
  destruct E as [out E].
  destruct (X8_draw_watermark_steps ref_datetime (ref_imaging true true)
              (Demo.photo "L" None) "2000-02-29" 10 [255; 255; 255; 255]
              "bottom-right" (Demo.photos true true) out
              (Demo.photos true true) E)
    as (base & l0 & font & w & h & l1 & l2 & l3 & l4 & l5 & comp
        & _ & _ & _ & _ & _ & _ & _ & _ & _ & Hc & Ho).
  exists out, base, l5, comp. split; [exact E |]. split; [exact Hc |].
  exact Ho.
Defined.

(** X9: when [process_image] reports success, the path it reports is the
    output directory joined with the name of the source, the message is
    'Saved -> ' and that path, the path holds a file written during the run,
    and the output directory and every directory above it exist. *)
Theorem X9_saved_copy_in_place :
  ∀ (DT : DateTimeLib) (IM : ImagingLib) (PF : Platform)
    (path : Path) (font_size : Z) (color : list Z) (position : string)
    (out_dir : Path) (fs : FS) p msg fs',
    process_image path font_size color position out_dir fs
    = (Ret (p, true, msg), fs') →
    p = path_join out_dir (path_name path)
    ∧ msg = "Saved -> " ++ path_str p
    ∧ (∃ data, fs' !! p = Some (NFile time_now data))
    ∧ (∀ q, q ∈ ancestors out_dir → fs' !! q = Some NDir).
Proof. intros DT IM PF. apply process_image_saved. Qed.

(** photos/a.jpg into photos/_watermark: the copy and the directory. *)
Lemma X9_saved_copy_in_place_witness :
  ∃ fs' data,
    @process_image ref_datetime (ref_imaging true true) ref_platform
      ["photos"; "a.jpg"] 10 [255; 255; 255; 255] "bottom-right"
      ["photos"; "_watermark"] (Demo.photos true true)
    = (Ret (["photos"; "_watermark"; "a.jpg"], true,
            "Saved -> photos/_watermark/a.jpg"), fs')
    ∧ fs' !! ["photos"; "_watermark"; "a.jpg"]
      = Some (NFile (@time_now ref_datetime ref_platform) data)
    ∧ fs' !! ["photos"; "_watermark"] = Some NDir.
Proof.
  assert (E : ∃ fs',
            @process_image ref_datetime (ref_imaging true true) ref_platform
              ["photos"; "a.jpg"] 10 [255; 255; 255; 255] "bottom-right"
              ["photos"; "_watermark"] (Demo.photos true true)
            = (Ret (["photos"; "_watermark"; "a.jpg"], true,
                    "Saved -> photos/_watermark/a.jpg"), fs'))
    by (eexists; reflexivity).
  destruct E as [fs' E].
  destruct (X9_saved_copy_in_place ref_datetime (ref_imaging true true)
              ref_platform _ _ _ _ _ _ _ _ _ E) as (_ & _ & [data Hd] & Ha).
  exists fs', data. split; [exact E |]. split; [exact Hd |].
  apply Ha. apply (bool_decide_unpack _). reflexivity.
Defined.



(** X11: a source that cannot be opened for reading (missing, a directory,
    not a regular file) has no metadata date, gives a failed result with its
    own path, and leaves the file system exactly as it was: no output
    directory is made for it. *)
Theorem X11_unreadable_source_leaves_no_trace :
  ∀ (DT : DateTimeLib) (IM : ImagingLib) (PF : Platform)
    (path : Path) (font_size : Z) (color : list Z) (position : string)
    (out_dir : Path) (fs : FS),
    (∀ mtime data, fs !! path ≠ Some (NFile mtime data)) →
    get_exif_date path fs = (Ret None, fs)
    ∧ ∃ e, process_image path font_size color position out_dir fs
           = (Ret (path, false, "Error: " ++ exn_str e), fs).
Proof.
  intros DT IM PF path font_size color position out_dir fs H.
  apply process_image_unreadable. unfold read_file.
  destruct (fs !! path) as [[mt d | |] |] eqn:E; eauto.
  by destruct (H mt d).
Qed.

(** photos/missing.jpg is not there. *)
Lemma X11_unreadable_source_leaves_no_trace_witness :
  ∃ e, @process_image ref_datetime (ref_imaging true true) ref_platform
         ["photos"; "missing.jpg"] 10 [255; 255; 255; 255] "bottom-right"
         ["photos"; "_watermark"] (Demo.photos true true)
       = (Ret (["photos"; "missing.jpg"], false, "Error: " ++ exn_str e),
          Demo.photos true true).
Proof.
  destruct (X11_unreadable_source_leaves_no_trace ref_datetime
              (ref_imaging true true) ref_platform ["photos"; "missing.jpg"]
              10 [255; 255; 255; 255] "bottom-right" ["photos"; "_watermark"]
              (Demo.photos true true)) as (_ & H).
  - intros mtime data. discriminate.
  - exact H.
Defined.

(** X12: every path that the batch reports as saved holds a file when the
    batch ends: no later file of the batch removes it or puts a directory in
    its place. *)
Theorem X12_saved_files_exist_at_the_end :
  ∀ (DT : DateTimeLib) (IM : ImagingLib) (PF : Platform)
    (targets : list Path) (font_size : Z) (color : list Z) (position : string)
    (out_dir : Path) (fs : FS) rs fs',
    process_all targets font_size color position out_dir fs = (Ret rs, fs') →
    ∀ p msg, (p, true, msg) ∈ rs →
      ∃ mtime data, fs' !! p = Some (NFile mtime data).
Proof. intros DT IM PF. apply process_all_saved. Qed.

(** a.jpg was saved first and is still there after b.jpg, which fails. *)
Lemma X12_saved_files_exist_at_the_end_witness :
  ∃ mtime data,
    (@process_all ref_datetime (ref_imaging true true) ref_platform
       [["photos"; "a.jpg"]; ["photos"; "b.jpg"]]
       10 [255; 255; 255; 255] "bottom-right" ["photos"; "_watermark"]
       (Demo.photos true true)).2 !! ["photos"; "_watermark"; "a.jpg"]
    = Some (NFile mtime data).
Proof.
  assert (E : ∃ rs fs',
            @process_all ref_datetime (ref_imaging true true) ref_platform
              [["photos"; "a.jpg"]; ["photos"; "b.jpg"]]
              10 [255; 255; 255; 255] "bottom-right" ["photos"; "_watermark"]
              (Demo.photos true true) = (Ret rs, fs')
            ∧ (["photos"; "_watermark"; "a.jpg"], true,
               "Saved -> photos/_watermark/a.jpg") ∈ rs).
  { eexists _, _. split; [reflexivity |]. apply elem_of_cons. by left. }
  destruct E as (rs & fs' & E & Hin). rewrite E.
  exact (X12_saved_files_exist_at_the_end ref_datetime (ref_imaging true true)
           ref_platform _ _ _ _ _ _ _ _ E _ _ Hin).
Defined.

Section SingleFile.
Context `{DT : DateTimeLib} `{IM : ImagingLib} `{PF : !Platform}.

Lemma main_single_file (args : Args) (fs : FS) mtime data :
  fs !! input_of args = Some (NFile mtime data) →
  let out_dir := path_join (path_parent (input_of args)) (arg_out_subdir args) in
  (supported (input_of args) = false →
     main args fs = (Ret (), fs, [no_images_line]))
  ∧ (supported (input_of args) = true →
     ∃ color r fs',
       parse_color (arg_color args) = Ret color
       ∧ process_image (input_of args) (arg_font_size args) color
           (arg_position args) out_dir fs = (Ret r, fs')
       ∧ main args fs
         = (Ret (), fs',
            [found_line 1 out_dir; file_line (input_of args) r.2;
             done_line (if r.1.2 then 1 else 0) 1])).
Proof.
  intros Hf out_dir.
  pose proof (gather_targets_file fs (input_of args) mtime data Hf) as Hg.
  assert (Ho : out_dir_of args fs = out_dir)
    by (unfold out_dir_of; by rewrite Hf).
  split; intros Hs; rewrite Hs in Hg.
  - apply main_no_targets; [by eexists | done].
  - destruct (parse_color_rgba (arg_color args)) as (cr & cg & cb & ca & Hc).
    destruct (process_image_total (input_of args) (arg_font_size args)
                [cr; cg; cb; ca] (arg_position args) out_dir fs)
      as (r & fs' & Hr).
    exists [cr; cg; cb; ca], r, fs'. split; [done |]. split; [done |].
    erewrite (main_batch args fs [input_of args] _ [r] fs');
      [| by eexists | done | done | done |].
    + rewrite Ho. cbn [length file_lines zip_with app].
      rewrite successes_cons. unfold successes. simpl.
      by rewrite Z.add_0_r.
    + rewrite Ho. cbn [process_all]. rewrite fsm_bind_run, Hr. reflexivity.
Qed.

End SingleFile.

(** X13: for an input path that is one file, the output directory is the
    file's parent joined with the subdirectory name; a file whose suffix is
    not supported gives the no-images message and changes nothing; a
    supported file is processed once, and the run prints 'Found 1 images',
    the line of the file and 'Done. 1/1 processed.' or 'Done. 0/1
    processed.' according to its result. *)
Theorem X13_single_file_input :
  ∀ (DT : DateTimeLib) (IM : ImagingLib) (PF : Platform)
    (args : Args) (fs : FS) mtime data,
    fs !! input_of args = Some (NFile mtime data) →
    (supported (input_of args) = false →
       main args fs = (Ret (), fs, [no_images_line]))
    ∧ (supported (input_of args) = true →
       ∃ color r fs',
         parse_color (arg_color args) = Ret color
         ∧ process_image (input_of args) (arg_font_size args) color
             (arg_position args)
             (path_join (path_parent (input_of args)) (arg_out_subdir args))
             fs = (Ret r, fs')
         ∧ main args fs
           = (Ret (), fs',
              [found_line 1
                 (path_join (path_parent (input_of args))
                    (arg_out_subdir args));
               file_line (input_of args) r.2;
               done_line (if r.1.2 then 1 else 0) 1])).
Proof. intros DT IM PF args fs mtime data. apply main_single_file. Qed.

(** The text file of the demo folder, given by itself. *)
Lemma X13_single_file_input_witness :
  @main ref_datetime (ref_imaging true true) ref_platform
    (Demo.args "photos/notes.txt") (Demo.photos true true)
  = (Ret (), Demo.photos true true, [no_images_line]).
Proof.
  destruct (X13_single_file_input ref_datetime (ref_imaging true true)
              ref_platform (Demo.args "photos/notes.txt")
              (Demo.photos true true) 0 Reference.OtherFile eq_refl)
    as (H & _).
  apply H. reflexivity.
Defined.

Section Pipeline.
Context `{DT : DateTimeLib} `{IM : ImagingLib} `{PF : !Platform}.

(** What a saved copy is made of. *)
Lemma process_image_pipeline (path : Path) (font_size : Z) (color : list Z)
    (position : string) (out_dir : Path) (fs : FS) p msg fs' :
  process_image path font_size color position out_dir fs
  = (Ret (p, true, msg), fs') →
  ∃ date img out_img data,
    resolve_date path fs = (Ret date, fs)
    ∧ Image_open path fs = (Ret img, fs)
    ∧ draw_watermark img date font_size color position fs = (Ret out_img, fs)
    ∧ im_mode out_img = im_mode img
    ∧ image_encode out_img p = Ret data
    ∧ fs' !! p = Some (NFile time_now data).
Proof.
  intros H. unfold process_image, try_fs in H.
  destruct (process_image_body _ _ _ _ _ fs) as [[r | e] fs0] eqn:E;
    [| discriminate].
  injection H as -> ->.
  pose proof (process_image_body_result _ _ _ _ _ _ _ _ E) as [= Hp _].
  unfold process_image_body in E.
  apply fsm_bind_inv in E as (date & fs1 & Ed & E).
  pose proof (readonly_run _ _ _ _ (readonly_resolve_date path) Ed) as ->.
  apply fsm_bind_inv in E as (img & fs2 & Ei & E).
  pose proof (readonly_run _ _ _ _ (readonly_Image_open path) Ei) as ->.
  apply fsm_bind_inv in E as (out_img & fs3 & Ew & E).
  pose proof (readonly_run _ _ _ _
                (readonly_draw_watermark img date font_size color position)
                Ew) as ->.
  apply fsm_bind_inv in E as ([] & fs4 & Em & E).
  apply fsm_bind_inv in E as ([] & fs5 & Es & E).
  injection E as ->. unfold Image_save in Es.
  apply fsm_bind_inv in Es as (data & fs6 & Ee & Es).
  apply lift_inv in Ee as [Ee ->].
  apply write_file_effect in Es as [(_ & -> & _) | ([e [=]] & _)].
  exists date, img, out_img, data. rewrite <- Hp in *.
  repeat (split; [done |]). split; [by eapply draw_watermark_mode |].
  split; [done |]. subst fs'. apply lookup_insert_eq.
Qed.

Lemma ensure_font_size_ignored (fs : FS) (s1 s2 : Z) :
  (∀ p, p ∈ font_candidates → fs !! path_of_string p = None) →
  ensure_font s1 fs = ensure_font s2 fs.
Proof.
  intros H. unfold ensure_font. rewrite !fsm_bind_run.
  rewrite !try_candidates_none; [done | |]; intros p Hp; left; by apply H.
Qed.

End Pipeline.

(** X14: a date found in the metadata is the date of the file: the
    modification time is not read, so it cannot change or fail the
    result. *)
Theorem X14_metadata_date_wins :
  ∀ (DT : DateTimeLib) (IM : ImagingLib) (PF : Platform) (path : Path)
    (fs : FS) (d : string),
    get_exif_date path fs = (Ret (Some d), fs) →
    resolve_date path fs = (Ret d, fs).
Proof. intros DT IM PF. apply resolve_date_found. Qed.

(** photos/a.jpg was modified in November 2023 and taken in May. *)
Lemma X14_metadata_date_wins_witness :
  @resolve_date ref_datetime (ref_imaging true true) ref_platform
    ["photos"; "a.jpg"] (Demo.photos true true)
  = (Ret "2023-05-17", Demo.photos true true).
Proof.
  apply (X14_metadata_date_wins ref_datetime (ref_imaging true true)
           ref_platform).
  reflexivity.
Defined.

(** X15: a saved copy is the pipeline applied to the source and nothing
    else: the text is the resolved date of the source, it is rendered on the
    decoded source with the font size, color and placement given, the
    rendered image has the mode of the decoded source, and the file at the
    reported path holds the encoding of that image for that path. *)
Theorem X15_saved_copy_is_the_pipeline :
  ∀ (DT : DateTimeLib) (IM : ImagingLib) (PF : Platform)
    (path : Path) (font_size : Z) (color : list Z) (position : string)
    (out_dir : Path) (fs : FS) p msg fs',
    process_image path font_size color position out_dir fs
    = (Ret (p, true, msg), fs') →
    ∃ date img out_img data,
      resolve_date path fs = (Ret date, fs)
      ∧ Image_open path fs = (Ret img, fs)
      ∧ draw_watermark img date font_size color position fs
        = (Ret out_img, fs)
      ∧ im_mode out_img = im_mode img
      ∧ image_encode out_img p = Ret data
      ∧ fs' !! p = Some (NFile time_now data).
Proof. intros DT IM PF. apply process_image_pipeline. Qed.

(** photos/a.jpg: stamped with the date of its DateTimeOriginal tag. *)
Lemma X15_saved_copy_is_the_pipeline_witness :
  ∃ (img out_img : Reference.rimage) (data : Reference.rfile)
    (fs' : gmap Path (@node ref_datetime (ref_imaging true true))),
    @resolve_date ref_datetime (ref_imaging true true) ref_platform
      ["photos"; "a.jpg"] (Demo.photos true true)
    = (Ret "2023-05-17", Demo.photos true true)
    ∧ @draw_watermark ref_datetime (ref_imaging true true) img "2023-05-17"
        10 [255; 255; 255; 255] "bottom-right" (Demo.photos true true)
      = (Ret out_img, Demo.photos true true)
    ∧ fs' !! ["photos"; "_watermark"; "a.jpg"]
      = Some (Demo.file true true 1700000000 data).
Proof.
  assert (E : ∃ fs',
            @process_image ref_datetime (ref_imaging true true) ref_platform
              ["photos"; "a.jpg"] 10 [255; 255; 255; 255] "bottom-right"
              ["photos"; "_watermark"] (Demo.photos true true)
            = (Ret (["photos"; "_watermark"; "a.jpg"], true,
                    "Saved -> photos/_watermark/a.jpg"), fs'))
    by (eexists; reflexivity).
  destruct E as [fs' E].
  destruct (X15_saved_copy_is_the_pipeline ref_datetime (ref_imaging true true)
              ref_platform _ _ _ _ _ _ _ _ _ E)
    as (date & img & out_img & data & Hd & _ & Hw & _ & _ & Hf).
  assert (date = "2023-05-17") as ->.
  { assert (Hd' : @resolve_date ref_datetime (ref_imaging true true)
                    ref_platform ["photos"; "a.jpg"] (Demo.photos true true)
                  = (Ret "2023-05-17", Demo.photos true true))
      by reflexivity.
    rewrite Hd' in Hd. by injection Hd. }
  exists img, out_img, data, fs'. split; [exact Hd |]. split; [exact Hw |].
  exact Hf.
Defined.

(** X16: when none of the candidate font files exists, the font size has no
    effect: the built-in font is loaded without it, so [ensure_font] gives
    the same result at every size. *)
Theorem X16_font_size_ignored_without_font_files :
  ∀ (DT : DateTimeLib) (IM : ImagingLib) (fs : FS) (s1 s2 : Z),
    (∀ p, p ∈ font_candidates → fs !! path_of_string p = None) →
    ensure_font s1 fs = ensure_font s2 fs.
Proof. intros DT IM. apply @ensure_font_size_ignored. Qed.

(** The demo folder has no font files: size 10 and size 36 are one font. *)
Lemma X16_font_size_ignored_without_font_files_witness :
  @ensure_font ref_datetime (ref_imaging true true) 10 (Demo.photos true true)
  = @ensure_font ref_datetime (ref_imaging true true) 36
      (Demo.photos true true).
Proof.
  apply (X16_font_size_ignored_without_font_files ref_datetime
           (ref_imaging true true) (Demo.photos true true) 10 36).
  intros p Hp.
  repeat (apply elem_of_cons in Hp as [-> | Hp]; [reflexivity |]).
  by apply elem_of_nil in Hp.
Defined.
